(** * BBCode dialect: shallow embedding and verified properties

    Embedding of [app/assets/javascripts/discourse/dialects/bbcode_dialect.js].

    The file registers BBCode tag rules against [Discourse.Dialect]: inline
    rules through [Discourse.Dialect.inlineBetween] and block rules through
    [Discourse.Dialect.replaceBlock].  Emitters build JsonML: an array whose
    head is the tag name, optionally followed by an attribute object, followed
    by the children.

    Layout:
    - [Js]      : the JavaScript values and built-ins the file uses;
    - [Regexp]  : the regular expression literals of the file;
    - [Dialect] : the host engine ([Discourse.Dialect]), which is not part of
                  the file; it is modelled from the specification;
    - [Node]    : the specification's node model, as a view of JsonML;
    - [BBCode]  : the file itself, function by function;
    - the theorems. *)

From Stdlib Require Import List String Ascii Bool Arith ZArith Lia.
From Stdlib Require Import Numbers.DecimalString Numbers.DecimalPos.
Import ListNotations.

Set Warnings "-register-all".

Local Open Scope string_scope.
Local Open Scope list_scope.

(* ================================================================== *)
(** ** JavaScript values and built-ins *)
(* ================================================================== *)

Module Js.

(** A JS string is a sequence of code units.  It is modelled as a Rocq
    [string]; each character stands for one code unit in the range 0..255.
    All literals of the source are ASCII. *)

(** The values that occur in the file: [undefined], booleans, strings,
    arrays, and object literals (an association list, in insertion order). *)
Inductive JsVal : Type :=
| JUndefined : JsVal
| JBool : bool -> JsVal
| JStr : string -> JsVal
| JArr : list JsVal -> JsVal
| JObj : list (string * JsVal) -> JsVal.

(** [ToBoolean]: what [if (v)], [v ? a : b] and [v || w] test. *)
Definition truthy (v : JsVal) : bool :=
  match v with
  | JUndefined => false
  | JBool b => b
  | JStr s => negb (s =? "")
  | JArr _ => true
  | JObj _ => true
  end.

(** [Array.prototype.join] on strings. *)
Definition join (sep : string) (l : list string) : string := String.concat sep l.

(** [ToString].  An array is its elements joined by a comma, [undefined]
    elements giving the empty string; an object literal is
    ["[object Object]"]. *)
Fixpoint ToString (v : JsVal) : string :=
  match v with
  | JUndefined => "undefined"
  | JBool true => "true"
  | JBool false => "false"
  | JStr s => s
  | JArr l =>
      join "," (map (fun x => match x with
                              | JUndefined => ""
                              | _ => ToString x
                              end) l)
  | JObj _ => "[object Object]"
  end.

(** [a.concat(v)]: an array argument is spread (one level), anything else is
    appended as one element. *)
Definition concat (a : list JsVal) (v : JsVal) : list JsVal :=
  match v with
  | JArr l => a ++ l
  | _ => a ++ [v]
  end.

(** [a.push(v)], returning the updated array. *)
Definition push (a : list JsVal) (v : JsVal) : list JsVal := a ++ [v].

(** [a.forEach(f)] where [f] updates a piece of state [S]. *)
Definition forEach {A S : Type} (a : list A) (f : S -> A -> S) (s : S) : S :=
  fold_left f a s.

(** [a[i]], [undefined] out of range. *)
Definition at_index (a : list JsVal) (i : nat) : JsVal := nth i a JUndefined.

(** *** Characters *)

Definition code (c : ascii) : nat := nat_of_ascii c.

Definition in_range (lo hi : nat) (c : ascii) : bool :=
  ((lo <=? code c)%nat && (code c <=? hi)%nat)%bool.

Definition is_lower (c : ascii) : bool := in_range 97 122 c.
Definition is_upper (c : ascii) : bool := in_range 65 90 c.
Definition is_digit (c : ascii) : bool := in_range 48 57 c.

(** [\w] *)
Definition is_word_char (c : ascii) : bool :=
  is_lower c || is_upper c || is_digit c || (c =? "_")%char.

(** White space and line terminators in the modelled range: TAB, LF, VT, FF,
    CR, SP, NBSP. *)
Definition is_space (c : ascii) : bool :=
  in_range 9 13 c || (code c =? 32)%nat || (code c =? 160)%nat.

(** Line terminators in the modelled range: LF and CR. *)
Definition is_line_terminator (c : ascii) : bool :=
  (code c =? 10)%nat || (code c =? 13)%nat.

(** Upper-casing of one code unit: ASCII letters, and the Latin-1 letters
    whose upper case is again one code unit of the modelled range. *)
Definition upcase (c : ascii) : ascii :=
  if is_lower c || (in_range 224 254 c && negb (code c =? 247)%nat)
  then ascii_of_nat (code c - 32)
  else c.

Definition downcase (c : ascii) : ascii :=
  if is_upper c || (in_range 192 222 c && negb (code c =? 215)%nat)
  then ascii_of_nat (code c + 32)
  else c.

(** *** Strings *)

Fixpoint map_string (f : ascii -> ascii) (s : string) : string :=
  match s with
  | EmptyString => EmptyString
  | String c s' => String (f c) (map_string f s')
  end.

(** [s.toUpperCase()] *)
Definition toUpperCase (s : string) : string := map_string upcase s.

Definition toLowerCase (s : string) : string := map_string downcase s.

(** [s.slice(n)] for [n >= 0]. *)
Fixpoint slice (n : nat) (s : string) : string :=
  match n, s with
  | O, _ => s
  | S n', String _ s' => slice n' s'
  | S _, EmptyString => EmptyString
  end.

(** [s.slice(0, n)]. *)
Fixpoint take (n : nat) (s : string) : string :=
  match n, s with
  | S n', String c s' => String c (take n' s')
  | _, _ => EmptyString
  end.

(** [s.indexOf(pat)]: the first position where [pat] occurs; [None] stands
    for [-1]. *)
Fixpoint indexOf (pat s : string) : option nat :=
  if String.prefix pat s then Some 0
  else match s with
       | EmptyString => None
       | String _ s' => option_map S (indexOf pat s')
       end.

(** [s.split(/\n/)]: the pieces between line feeds; always at least one
    piece. *)
Fixpoint split_lf (s : string) : list string :=
  match s with
  | EmptyString => [""]
  | String c s' =>
      if (code c =? 10)%nat then "" :: split_lf s'
      else match split_lf s' with
           | [] => [String c ""]
           | p :: ps => String c p :: ps
           end
  end.

Definition all_chars (p : ascii -> bool) (s : string) : bool :=
  forallb p (list_ascii_of_string s).

(** *** Numbers

    Only [parseInt(param, 10) || 1] produces a number.  [NaN] apart, the
    results are integers; they are held exactly, which agrees with the
    Number type on the safe integers. *)
Inductive Number : Type :=
| NaN : Number
| Int : Z -> Number.

Fixpoint trim_left (s : string) : string :=
  match s with
  | String c s' => if is_space c then trim_left s' else s
  | EmptyString => EmptyString
  end.

(** The value of the longest prefix of decimal digits; [None] when there is
    no digit. *)
Fixpoint digits (acc : option Z) (s : string) : option Z :=
  match s with
  | String c s' =>
      if is_digit c
      then digits (Some (10 * match acc with Some a => a | None => 0 end
                         + Z.of_nat (code c - 48))%Z) s'
      else acc
  | EmptyString => acc
  end.

(** [parseInt(s, 10)]: leading white space is skipped, one sign is read,
    then the longest run of decimal digits; [NaN] if there is none. *)
Definition parseInt10 (s : string) : Number :=
  let s := trim_left s in
  let '(sign, s) :=
    match s with
    | String "-"%char s' => ((-1)%Z, s')
    | String "+"%char s' => (1%Z, s')
    | _ => (1%Z, s)
    end in
  match digits None s with
  | Some n => Int (sign * n)
  | None => NaN
  end.

Definition number_truthy (n : Number) : bool :=
  match n with
  | NaN => false
  | Int z => negb (z =? 0)%Z
  end.

(** [n || d] on numbers. *)
Definition number_or (n d : Number) : Number :=
  if number_truthy n then n else d.

(** [ToString] of a number. *)
Definition number_to_string (n : Number) : string :=
  match n with
  | NaN => "NaN"
  | Int z => NilEmpty.string_of_int (Z.to_int z)
  end.

End Js.

Import Js.

(* ================================================================== *)
(** ** The regular expression literals of the file *)
(* ================================================================== *)

Module Regexp.

(** Each literal is embedded as the function that its one use computes
    ([exec] or [test]) on a string, from its first character, with the
    backtracking order written out. *)

(** The double quote (written [\x22] in the patterns below) or the single
    quote. *)
Definition is_quote (c : ascii) : bool := ((c =? "034") || (c =? "'"))%char.

(** [.] without the [s] flag: any code unit but a line terminator. *)
Definition dot (c : ascii) : bool := negb (is_line_terminator c).

(** *** The parameter pattern of replaceBBCodeParamsRaw

    [^ [\x22']? (.+?) [\x22']? \] ( .* ) $], written here with spaces
    between its parts. *)

(** [\] ( .* ) $]: a closing bracket, then everything up to the end of the
    input, which [.] must be able to cross. *)
Definition close (s : string) : option string :=
  match s with
  | String "]"%char rest => if all_chars dot rest then Some rest else None
  | _ => None
  end.

(** [[\x22']? \] ( .* ) $]: the optional quote is greedy; when the rest
    fails with the quote taken, it is retried without. *)
Definition quote_close (s : string) : option string :=
  match s with
  | String q s' =>
      if is_quote q
      then match close s' with
           | Some r => Some r
           | None => close s
           end
      else close s
  | EmptyString => close s
  end.

(** [(.+?)] after its first character: lazy, so the rest of the pattern is
    tried before one more character is taken. *)
Fixpoint lazy_rest (taken s : string) : option (string * string) :=
  match quote_close s with
  | Some rest => Some (taken, rest)
  | None =>
      match s with
      | String c s' =>
          if dot c then lazy_rest (taken ++ String c "") s' else None
      | EmptyString => None
      end
  end.

(** [(.+?) [\x22']? \] ( .* ) $]: the group needs one character at least. *)
Definition lazy_group (s : string) : option (string * string) :=
  match s with
  | String c s' => if dot c then lazy_rest (String c "") s' else None
  | EmptyString => None
  end.

(** [regexp.exec(contents)]: [Some (m[1], m[2])], or [None] for [null].
    The leading optional quote is greedy, and given back on failure. *)
Definition params_exec (s : string) : option (string * string) :=
  match s with
  | String q s' =>
      if is_quote q
      then match lazy_group s' with
           | Some r => Some r
           | None => lazy_group s
           end
      else lazy_group s
  | EmptyString => lazy_group s
  end.

(** *** Case-insensitive literals

    With the [i] flag two code units match when their canonical (upper case)
    forms are equal. *)
Definition ci_eq (a b : ascii) : bool := (upcase a =? upcase b)%char.

(** The literal [pat] matches at the head of [s], ignoring case. *)
Fixpoint ci_prefix (pat s : string) : bool :=
  match pat, s with
  | EmptyString, _ => true
  | String p pat', String c s' => ci_eq p c && ci_prefix pat' s'
  | String _ _, EmptyString => false
  end.

(** Unanchored search: the literal matches somewhere in [s]. *)
Fixpoint ci_search (pat s : string) : bool :=
  ci_prefix pat s ||
  match s with
  | EmptyString => false
  | String _ s' => ci_search pat s'
  end.

(** [/<img/i.test(contents)] (spoiler) *)
Definition img_test (s : string) : bool := ci_search "<img" s.

(** [/\[\/code\]/i] and [/\[\/list\]/i], the block stop patterns. *)
Definition code_stop (s : string) : bool := ci_search "[/code]" s.
Definition list_stop (s : string) : bool := ci_search "[/list]" s.

(** [/(\[code\])( [\s\S]* )/igm] matched at the head of [s]: the match array
    [m[0], m[1], m[2]].  (The [g] and [m] flags play no part in one match
    on one line.) *)
Definition code_start_here (s : string) : option (list JsVal) :=
  if ci_prefix "[code]" s
  then Some [JStr s; JStr (take 6 s); JStr (slice 6 s)]
  else None.

(** [/\[list=?(\w)?\]( [\s\S]* )/igm] matched at the head of [s].  [=], [\w]
    and [\]] exclude one another, so the greedy choices are the only ones:
    [m[1]] is the word character before the bracket, or [undefined]. *)
Definition list_start_here (s : string) : option (list JsVal) :=
  if ci_prefix "[list" s then
    let r := slice 5 s in
    let r := match r with
             | String "="%char r' => r'
             | _ => r
             end in
    match r with
    | String "]"%char rest => Some [JStr s; JUndefined; JStr rest]
    | String w (String "]"%char rest) =>
        if is_word_char w
        then Some [JStr s; JStr (String w ""); JStr rest]
        else None
    | _ => None
    end
  else None.

(** Unanchored search for the leftmost match. *)
Fixpoint search (here : string -> option (list JsVal)) (s : string)
  : option (list JsVal) :=
  match here s with
  | Some m => Some m
  | None =>
      match s with
      | EmptyString => None
      | String _ s' => search here s'
      end
  end.

Definition code_start (s : string) : option (list JsVal) :=
  search code_start_here s.
Definition list_start (s : string) : option (list JsVal) :=
  search list_start_here s.

End Regexp.

(* ================================================================== *)
(** ** The host engine, [Discourse.Dialect] *)
(* ================================================================== *)

Module Dialect.

(** [Discourse.Dialect] is defined in another file of the repository.  What
    the source file relies on is modelled here from the specification:
    the two registration points, the inline matcher with its re-entry hook,
    and the block matcher. *)

(** Modelled from the spec: the object emitters are called on ([this]); it
    offers the inline re-entry hook [processInline(text) -> NodeList] of
    section 6. *)
Record This : Type := { processInline : string -> JsVal }.

(** An inline emitter is called as [emitter.call(this, contents)]. *)
Definition Emitter : Type := This -> JsVal -> JsVal.

(** The options object handed to [inlineBetween]; an absent key is [None].
    The keys are those documented at the head of the source file. *)
Record Opts : Type := {
  opt_emitter : option Emitter;
  opt_start : option string;
  opt_stop : option string;
  opt_between : option string;
  opt_rawContents : option bool;
  opt_wordBoundary : option bool;
  opt_spaceBoundary : option bool
}.

(** The object literal with no key. *)
Definition empty_opts : Opts :=
  {| opt_emitter := None; opt_start := None; opt_stop := None;
     opt_between := None; opt_rawContents := None;
     opt_wordBoundary := None; opt_spaceBoundary := None |}.

Definition or_else {A : Type} (a b : option A) : option A :=
  match a with
  | Some _ => a
  | None => b
  end.

(** [_.merge(dst, src)]: every key of [src] is written into [dst], which is
    returned. *)
Definition merge (dst src : Opts) : Opts :=
  {| opt_emitter := or_else (opt_emitter src) (opt_emitter dst);
     opt_start := or_else (opt_start src) (opt_start dst);
     opt_stop := or_else (opt_stop src) (opt_stop dst);
     opt_between := or_else (opt_between src) (opt_between dst);
     opt_rawContents := or_else (opt_rawContents src) (opt_rawContents dst);
     opt_wordBoundary := or_else (opt_wordBoundary src) (opt_wordBoundary dst);
     opt_spaceBoundary :=
       or_else (opt_spaceBoundary src) (opt_spaceBoundary dst) |}.

(** Modelled from the spec: the InlineRule record of section 3; the engine
    that stores it is not part of the source file. *)
Record InlineRule : Type := {
  start : string;
  stop : string;
  rawContents : bool;
  wordBoundary : bool;
  spaceBoundary : bool;
  emitter : Emitter
}.

(** Modelled from the spec: the BlockRule record of section 3.  The two
    patterns are held as the functions they compute: [block_start] gives the
    match array of the start pattern on a line, [block_stop] tests the stop
    pattern. *)
Record BlockRule : Type := {
  block_start : string -> option (list JsVal);
  block_stop : string -> bool;
  block_emitter : This -> list string -> list JsVal -> JsVal
}.

(** Modelled from the spec: the rule registry of section 4.2, two ordered
    lists. *)
Record Registry : Type := {
  inline_rules : list InlineRule;
  block_rules : list BlockRule
}.

Definition empty_registry : Registry :=
  {| inline_rules := []; block_rules := [] |}.

(** Modelled from the spec: [registerInline] of section 4.2 appends the rule
    to the ordered list, with no uniqueness check. *)
Definition registerInline (r : InlineRule) (reg : Registry) : Registry :=
  {| inline_rules := inline_rules reg ++ [r];
     block_rules := block_rules reg |}.

(** Modelled from the spec: [registerBlock] of section 4.2, same
    discipline. *)
Definition registerBlock (r : BlockRule) (reg : Registry) : Registry :=
  {| inline_rules := inline_rules reg;
     block_rules := block_rules reg ++ [r] |}.

Definition flag (b : option bool) : bool :=
  match b with
  | Some true => true
  | _ => false
  end.

(** Modelled from the spec: [Discourse.Dialect.inlineBetween], the inline
    registration point.  The options are read when the call is made (rules
    are immutable once registered, section 3); [between] stands for both
    tokens when they are the same.  Without tokens or emitter there is no
    rule to add. *)
Definition inlineBetween (args : Opts) (reg : Registry) : Registry :=
  match or_else (opt_start args) (opt_between args),
        or_else (opt_stop args) (opt_between args),
        opt_emitter args with
  | Some s, Some e, Some em =>
      registerInline
        {| start := s; stop := e;
           rawContents := flag (opt_rawContents args);
           wordBoundary := flag (opt_wordBoundary args);
           spaceBoundary := flag (opt_spaceBoundary args);
           emitter := em |} reg
  | _, _, _ => reg
  end.

(** Modelled from the spec: [Discourse.Dialect.replaceBlock], the block
    registration point. *)
Definition replaceBlock (args : BlockRule) (reg : Registry) : Registry :=
  registerBlock args reg.

(** *** Inline matcher (section 4.3) *)

(** Modelled from the spec: steps 2 and 3 of section 4.3.  The character
    before [start], when there is one, must not be a word character
    ([wordBoundary]), must be white space ([spaceBoundary]). *)
Definition invalidBoundary (r : InlineRule) (prev : option ascii) : bool :=
  match prev with
  | None => false
  | Some c =>
      (wordBoundary r && is_word_char c)
      || (spaceBoundary r && negb (is_space c))
  end.

(** Modelled from the spec: steps 1 to 7 of section 4.3 for one rule at the
    head of [text].  The rule fires when [start] is a literal prefix, the
    boundary flags allow it, and [stop] occurs after [start]; the span
    between is re-entered unless [rawContents]; an emitter that returns
    nothing ([undefined]) means the rule does not fire (section 4.4).  The
    result is the number of characters consumed and the emitted node. *)
Definition try_rule (this : This) (r : InlineRule) (prev : option ascii)
    (text : string) : option (nat * JsVal) :=
  if negb (String.prefix (start r) text) then None
  else if invalidBoundary r prev then None
  else
    let after := slice (String.length (start r)) text in
    match indexOf (stop r) after with
    | None => None
    | Some k =>
        let between := take k after in
        let contents :=
          if rawContents r then JStr between
          else processInline this between in
        match emitter r this contents with
        | JUndefined => None
        | node =>
            Some (String.length (start r) + k + String.length (stop r), node)
        end
    end.

(** Modelled from the spec: section 4.2, rules are tried in registration
    order and the first that fires wins. *)
Fixpoint first_fire (this : This) (rules : list InlineRule)
    (prev : option ascii) (text : string) : option (nat * JsVal) :=
  match rules with
  | [] => None
  | r :: rs =>
      match try_rule this r prev text with
      | Some res => Some res
      | None => first_fire this rs prev text
      end
  end.

(** Modelled from the spec: text outside every match is emitted as it is;
    the pending literal text becomes one text leaf. *)
Definition flush (pending : string) : list JsVal :=
  if (pending =? "")%string then [] else [JStr pending].

(** Modelled from the spec: step 8 of section 4.3.  The text is walked left
    to right; [skip] counts the characters still covered by the span that
    was last consumed, [prev] is the character before the head, [pending]
    the literal text met since the last emitted node. *)
Fixpoint scan (this : This) (rules : list InlineRule) (skip : nat)
    (prev : option ascii) (pending : string) (text : string) : list JsVal :=
  match text with
  | EmptyString => flush pending
  | String c rest =>
      match skip with
      | S k => scan this rules k (Some c) pending rest
      | O =>
          match first_fire this rules prev text with
          | Some (consumed, node) =>
              flush pending
              ++ node :: scan this rules (consumed - 1) (Some c) "" rest
          | None =>
              scan this rules O (Some c) (pending ++ String c "") rest
          end
      end
  end.

(** Modelled from the spec: the inline re-entry hook
    [processInline(text) -> NodeList] of section 6, the same scan applied to
    a sub-span.  [depth] bounds the nesting of re-entries; at depth 0 the
    text is emitted literally (section 5). *)
Fixpoint apply_inline (rules : list InlineRule) (depth : nat) (text : string)
  : JsVal :=
  match depth with
  | O => JArr (flush text)
  | S d =>
      JArr (scan {| processInline := apply_inline rules d |}
                 rules O None "" text)
  end.

(** Modelled from the spec: the entry point of section 6 on one text.  A
    matched span is shorter than the text it lies in, so the length of the
    text bounds the nesting. *)
Definition process (rules : list InlineRule) (text : string) : JsVal :=
  apply_inline rules (S (String.length text)) text.

(** Modelled from the spec: the [this] whose hook re-enters at [depth]. *)
Definition this_for (rules : list InlineRule) (depth : nat) : This :=
  {| processInline := apply_inline rules depth |}.

(** *** Block matcher (section 4.5) *)

(** Modelled from the spec: step 1 of section 4.5, the first rule whose
    start pattern matches the line, with its match array. *)
Fixpoint first_block (rules : list BlockRule) (line : string)
  : option (BlockRule * list JsVal) :=
  match rules with
  | [] => None
  | r :: rs =>
      match block_start r line with
      | Some m => Some (r, m)
      | None => first_block rs line
      end
  end.

(** Modelled from the spec: step 2 of section 4.5, the lines before the
    first one that matches [stop], and whether such a line was met (the
    block is closed by the end of the input otherwise). *)
Fixpoint accumulate (stop_at : string -> bool) (lines : list string)
  : list string * bool :=
  match lines with
  | [] => ([], false)
  | l :: ls =>
      if stop_at l then ([], true)
      else let '(buf, closed) := accumulate stop_at ls in (l :: buf, closed)
  end.

(** Modelled from the spec: the block matcher of section 4.5 over the lines
    of a document.  A line outside every block is passed on as a string;
    [skip] counts the lines the last block consumed. *)
Fixpoint apply_blocks (this : This) (rules : list BlockRule) (skip : nat)
    (lines : list string) : list JsVal :=
  match lines with
  | [] => []
  | l :: rest =>
      match skip with
      | S k => apply_blocks this rules k rest
      | O =>
          match first_block rules l with
          | Some (r, m) =>
              let '(buf, closed) := accumulate (block_stop r) rest in
              block_emitter r this buf m
              :: apply_blocks this rules
                   (List.length buf + if closed then 1 else 0) rest
          | None => JStr l :: apply_blocks this rules O rest
          end
      end
  end.

End Dialect.

(* ================================================================== *)
(** ** The node model of the specification *)
(* ================================================================== *)

Module Node.

(** Modelled from the spec: the Node type of section 3, an element with a
    tag, attributes and children, or a text leaf. *)
Inductive Node : Type :=
| Element (tag : string) (attributes : list (string * string))
          (children : list Node)
| Text (value : string).

(** Attribute values are strings in the node model. *)
Definition attributes_of (o : list (string * JsVal))
  : list (string * string) :=
  map (fun kv => (fst kv, ToString (snd kv))) o.

(** Modelled from the spec: the reading of JsonML as a node.  A string is a
    text leaf; an array headed by a tag name is an element, whose second
    item, when it is an object, holds the attributes. *)
Fixpoint of_jsonml (v : JsVal) : option Node :=
  match v with
  | JStr s => Some (Text s)
  | JArr (JStr tag :: items) =>
      let nodes :=
        fix nodes (l : list JsVal) : option (list Node) :=
          match l with
          | [] => Some []
          | x :: xs =>
              match of_jsonml x, nodes xs with
              | Some n, Some ns => Some (n :: ns)
              | _, _ => None
              end
          end in
      match items with
      | JObj o :: kids => option_map (Element tag (attributes_of o)) (nodes kids)
      | _ => option_map (Element tag []) (nodes items)
      end
  | _ => None
  end.

(** Modelled from the spec: the tag, attribute object and children of a
    JsonML element. *)
Definition tag_of (v : JsVal) : option string :=
  match v with
  | JArr (JStr tag :: _) => Some tag
  | _ => None
  end.

Definition attrs_of (v : JsVal) : list (string * JsVal) :=
  match v with
  | JArr (JStr _ :: JObj o :: _) => o
  | _ => []
  end.

Definition children_of (v : JsVal) : list JsVal :=
  match v with
  | JArr (JStr _ :: JObj _ :: kids) => kids
  | JArr (JStr _ :: kids) => kids
  | _ => []
  end.

(** Lookup of a key in an object literal. *)
Fixpoint get (k : string) (o : list (string * JsVal)) : JsVal :=
  match o with
  | [] => JUndefined
  | (k', v) :: o' => if (k =? k')%string then v else get k o'
  end.

End Node.

Import Dialect.

(* ================================================================== *)
(** ** The source file, [bbcode_dialect.js] *)
(* ================================================================== *)

Module BBCode.

Local Open Scope string_scope.

(** The file is a sequence of registrations against the one registry. *)
Definition Script : Type := Registry -> Registry.

Definition seq (a b : Script) : Script := fun reg => b (a reg).

Declare Scope script_scope.
Delimit Scope script_scope with script.
Notation "a ;; b" := (seq a b) (at level 61, left associativity)
  : script_scope.

(** The line feed, the string the source writes with the escape [\n]. *)
Definition LF : string := String "010"%char "".

(** *** The four registration helpers *)

(** [function replaceBBCode(tag, emitter, opts)].  The one [opts] object is
    updated by each [_.merge] and handed to both registrations. *)
Definition replaceBBCode (tag : string) (emitter : Emitter)
    (opts : option Opts) : Script := fun reg =>
  let opts := match opts with Some o => o | None => empty_opts end in
  let opts := merge opts
    {| opt_emitter := Some emitter; opt_start := None; opt_stop := None;
       opt_between := None; opt_rawContents := None;
       opt_wordBoundary := None; opt_spaceBoundary := None |} in
  let opts := merge opts
    {| opt_emitter := None;
       opt_start := Some ("[" ++ tag ++ "]");
       opt_stop := Some ("[/" ++ tag ++ "]");
       opt_between := None; opt_rawContents := None;
       opt_wordBoundary := None; opt_spaceBoundary := None |} in
  let reg := inlineBetween opts reg in
  let tag := toUpperCase tag in
  let opts := merge opts
    {| opt_emitter := None;
       opt_start := Some ("[" ++ tag ++ "]");
       opt_stop := Some ("[/" ++ tag ++ "]");
       opt_between := None; opt_rawContents := None;
       opt_wordBoundary := None; opt_spaceBoundary := None |} in
  inlineBetween opts reg.

(** [function rawBBCode(tag, emitter)] *)
Definition rawBBCode (tag : string) (emitter : Emitter) : Script :=
  replaceBBCode tag emitter
    (Some {| opt_emitter := None; opt_start := None; opt_stop := None;
             opt_between := None; opt_rawContents := Some true;
             opt_wordBoundary := None; opt_spaceBoundary := None |}).

(** What [replaceBBCodeParamsRaw] receives: called as
    [emitter.call(this, m[1], m[2])]. *)
Definition ParamsEmitter : Type := This -> string -> string -> JsVal.

(** The emitter that [replaceBBCodeParamsRaw] puts in its options: run the
    parameter pattern on the contents; on a match call the given emitter on
    the two groups; otherwise fall off the end, returning [undefined]. *)
Definition params_emitter (emitter : ParamsEmitter) : Emitter :=
  fun this contents =>
    let m := Regexp.params_exec (ToString contents) in
    match m with
    | Some (m1, m2) => emitter this m1 m2
    | None => JUndefined
    end.

(** [function replaceBBCodeParamsRaw(tag, emitter)] *)
Definition replaceBBCodeParamsRaw (tag : string) (emitter : ParamsEmitter)
  : Script := fun reg =>
  let opts :=
    {| opt_emitter := Some (params_emitter emitter);
       opt_start := None; opt_stop := None; opt_between := None;
       opt_rawContents := Some true;
       opt_wordBoundary := None; opt_spaceBoundary := None |} in
  let opts := merge opts
    {| opt_emitter := None;
       opt_start := Some ("[" ++ tag ++ "=");
       opt_stop := Some ("[/" ++ tag ++ "]");
       opt_between := None; opt_rawContents := None;
       opt_wordBoundary := None; opt_spaceBoundary := None |} in
  let reg := inlineBetween opts reg in
  let tag := toUpperCase tag in
  let opts := merge opts
    {| opt_emitter := None;
       opt_start := Some ("[" ++ tag ++ "=");
       opt_stop := Some ("[/" ++ tag ++ "]");
       opt_between := None; opt_rawContents := None;
       opt_wordBoundary := None; opt_spaceBoundary := None |} in
  inlineBetween opts reg.

(** The function [replaceBBCodeParams] hands down: the contents go through
    [this.processInline] before the given emitter sees them. *)
Definition recursive_emitter (emitter : string -> JsVal -> JsVal)
  : ParamsEmitter :=
  fun this param contents => emitter param (processInline this contents).

(** [function replaceBBCodeParams(tag, emitter)] *)
Definition replaceBBCodeParams (tag : string)
    (emitter : string -> JsVal -> JsVal) : Script :=
  replaceBBCodeParamsRaw tag (recursive_emitter emitter).

(** *** The emitters, in the order of the file *)

Definition data_bbcode : string * JsVal := ("data-bbcode", JBool true).

Definition emit_b : Emitter := fun _ contents =>
  JArr (concat [JStr "span"; JObj [("class", JStr "bbcode-b")]] contents).
Definition emit_i : Emitter := fun _ contents =>
  JArr (concat [JStr "span"; JObj [("class", JStr "bbcode-i")]] contents).
Definition emit_u : Emitter := fun _ contents =>
  JArr (concat [JStr "span"; JObj [("class", JStr "bbcode-u")]] contents).
Definition emit_s : Emitter := fun _ contents =>
  JArr (concat [JStr "span"; JObj [("class", JStr "bbcode-s")]] contents).

Definition emit_ul : Emitter := fun _ contents =>
  JArr (concat [JStr "ul"] contents).
Definition emit_ol : Emitter := fun _ contents =>
  JArr (concat [JStr "ol"] contents).
Definition emit_li : Emitter := fun _ contents =>
  JArr (concat [JStr "li"] contents).

Definition emit_img : Emitter := fun _ contents =>
  JArr [JStr "img"; JObj [("href", contents)]].
Definition emit_email : Emitter := fun _ contents =>
  JArr [JStr "a";
        JObj [("href", JStr ("mailto:" ++ ToString contents)); data_bbcode];
        contents].
Definition emit_url : Emitter := fun _ contents =>
  JArr [JStr "a"; JObj [("href", contents); data_bbcode]; contents].
Definition emit_spoiler : Emitter := fun _ contents =>
  if Regexp.img_test (ToString contents)
  then JArr [JStr "div"; JObj [("class", JStr "spoiler")]; contents]
  else JArr [JStr "span"; JObj [("class", JStr "spoiler")]; contents].

Definition emit_url_param (param : string) (contents : JsVal) : JsVal :=
  JArr (concat [JStr "a"; JObj [("href", JStr param); data_bbcode]] contents).
Definition emit_email_param (param : string) (contents : JsVal) : JsVal :=
  JArr (concat [JStr "a";
                JObj [("href", JStr ("mailto:" ++ param)); data_bbcode]]
               contents).
(** The first [size] registration:
    [parseInt(param, 10) || 1] appended to the class prefix. *)
Definition emit_size_class (param : string) (contents : JsVal) : JsVal :=
  JArr (concat
          [JStr "span";
           JObj [("class",
                  JStr ("bbcode-size-"
                        ++ number_to_string
                             (number_or (parseInt10 param) (Int 1))))]]
          contents).

(** The [code] block. *)
Definition code_emitter (_ : This) (blockContents : list string)
    (_ : list JsVal) : JsVal :=
  JArr [JStr "p"; JArr (concat [JStr "pre"] (JStr (join LF blockContents)))].

Definition code_block : BlockRule :=
  {| block_start := Regexp.code_start;
     block_stop := Regexp.code_stop;
     block_emitter := code_emitter |}.

Definition emit_color (param : string) (contents : JsVal) : JsVal :=
  JArr (concat [JStr "font"; JObj [("color", JStr param)]] contents).
(** The second [size] registration. *)
Definition emit_size_font (param : string) (contents : JsVal) : JsVal :=
  JArr (concat [JStr "font"; JObj [("size", JStr param)]] contents).
Definition emit_font (param : string) (contents : JsVal) : JsVal :=
  JArr (concat [JStr "font"; JObj [("face", JStr param)]] contents).

Definition emit_small : Emitter := fun _ contents =>
  JArr (concat [JStr "span"; JObj [("style", JStr "font-size:x-small")]]
               contents).
Definition emit_highlight : Emitter := fun _ contents =>
  JArr (concat [JStr "span"; JObj [("class", JStr "highlight")]] contents).
Definition emit_align (direction : string) : Emitter := fun _ contents =>
  JArr (concat [JStr "div";
                JObj [("style", JStr ("text-align:" ++ direction))]]
               contents).

Definition emit_noparse : Emitter := fun _ contents => contents.

Definition emit_aname (param : string) (contents : JsVal) : JsVal :=
  JArr (concat [JStr "a"; JObj [("name", JStr param); data_bbcode]] contents).

Definition php_lookup : string :=
  "http://www.php.net/manual-lookup.php?function=".

Definition emit_fphp : Emitter := fun _ contents =>
  JArr [JStr "a";
        JObj [("href", JStr (php_lookup ++ ToString contents)); data_bbcode];
        contents].
Definition emit_fphp_param : ParamsEmitter := fun _ param contents =>
  JArr [JStr "a";
        JObj [("href", JStr (php_lookup ++ param)); data_bbcode];
        JStr contents].
Definition emit_google : Emitter := fun _ contents =>
  JArr [JStr "a";
        JObj [("href",
               JStr ("http://www.google.com/search?q=" ++ ToString contents));
              data_bbcode];
        contents].
Definition emit_jumpto (param : string) (contents : JsVal) : JsVal :=
  JArr (concat [JStr "a"; JObj [("href", JStr ("#" ++ param)); data_bbcode]]
               contents).

Definition sepquote (label : string) : list JsVal :=
  [JStr "div"; JObj [("class", JStr "sepquote")];
   JArr [JStr "span"; JObj [("class", JStr "smallfont")]; JStr label];
   JArr [JStr "br"]; JArr [JStr "br"]].

Definition emit_edit : Emitter := fun _ contents =>
  JArr (concat (sepquote "Edit:") contents).
Definition emit_ot : Emitter := fun _ contents =>
  JArr (concat (sepquote "Off Topic:") contents).
Definition emit_indent : Emitter := fun _ contents =>
  JArr [JStr "blockquote"; JArr (concat [JStr "div"] contents)].

Definition emit_rule (param : string) (contents : JsVal) : JsVal :=
  let style :=
    "margin: 6px 0; height: 0; border-top: 1px solid " ++ ToString contents
    ++ "; margin: auto; width: " ++ param in
  JArr [JStr "div"; JObj [("style", JStr style)]].

(** The [list] block.  [contents] is the array under construction; both
    loops push onto it. *)
Definition list_emitter (this : This) (blockContents : list string)
    (matches : list JsVal) : JsVal :=
  let contents :=
    if truthy (at_index matches 1)
    then [JStr "ol"; JObj [("type", at_index matches 1)]]
    else [JStr "ul"] in
  let contents :=
    if (0 <? List.length blockContents)%nat then
      let self := this in
      forEach blockContents (fun contents bc =>
        let lines := split_lf bc in
        forEach lines (fun contents line =>
          match indexOf "[*]" line with
          | Some O =>
              let li := processInline self (slice 3 line) in
              if truthy li
              then push contents (JArr (concat [JStr "li"] li))
              else contents
          | _ => contents
          end) contents) contents
    else contents in
  JArr contents.

Definition list_block : BlockRule :=
  {| block_start := Regexp.list_start;
     block_stop := Regexp.list_stop;
     block_emitter := list_emitter |}.

(** *** The registrations, top to bottom *)

Local Open Scope script_scope.

Definition script : Script :=
  replaceBBCode "b" emit_b None ;;
  replaceBBCode "i" emit_i None ;;
  replaceBBCode "u" emit_u None ;;
  replaceBBCode "s" emit_s None ;;
  replaceBBCode "ul" emit_ul None ;;
  replaceBBCode "ol" emit_ol None ;;
  replaceBBCode "li" emit_li None ;;
  rawBBCode "img" emit_img ;;
  rawBBCode "email" emit_email ;;
  rawBBCode "url" emit_url ;;
  rawBBCode "spoiler" emit_spoiler ;;
  replaceBBCodeParams "url" emit_url_param ;;
  replaceBBCodeParams "email" emit_email_param ;;
  replaceBBCodeParams "size" emit_size_class ;;
  replaceBlock code_block ;;
  replaceBBCodeParams "color" emit_color ;;
  replaceBBCodeParams "size" emit_size_font ;;
  replaceBBCodeParams "font" emit_font ;;
  replaceBBCode "small" emit_small None ;;
  replaceBBCode "highlight" emit_highlight None ;;
  (fun reg =>
     forEach ["left"; "center"; "right"]
       (fun reg direction =>
          replaceBBCode direction (emit_align direction) None reg) reg) ;;
  rawBBCode "noparse" emit_noparse ;;
  replaceBBCodeParams "aname" emit_aname ;;
  rawBBCode "fphp" emit_fphp ;;
  replaceBBCodeParamsRaw "fphp" emit_fphp_param ;;
  rawBBCode "google" emit_google ;;
  replaceBBCodeParams "jumpto" emit_jumpto ;;
  replaceBBCode "edit" emit_edit None ;;
  replaceBBCode "ot" emit_ot None ;;
  replaceBBCode "indent" emit_indent None ;;
  replaceBBCodeParams "rule" emit_rule ;;
  replaceBlock list_block.

(** The registry once the file is loaded. *)
Definition registry : Registry := script empty_registry.

Definition rules : list InlineRule := inline_rules registry.

Definition blocks : list BlockRule := block_rules registry.

(** Inline processing of a text, and block processing of the lines of a
    document, with the rules of the file. *)
Definition bbcode (text : string) : JsVal := process rules text.

(** The [this] of a pass over a document: its hook is the inline
    processing itself. *)
Definition this_bbcode : This := {| processInline := bbcode |}.

Definition bbcode_blocks (lines : list string) : list JsVal :=
  apply_blocks this_bbcode blocks O lines.

End BBCode.

Import BBCode.

(* ================================================================== *)
(** ** Vocabulary of the statements *)
(* ================================================================== *)

(** A rule with both boundary flags off, as every rule of the file is. *)
Definition tag_rule (start stop : string) (raw : bool) (em : Emitter)
  : InlineRule :=
  {| start := start; stop := stop; rawContents := raw;
     wordBoundary := false; spaceBoundary := false; emitter := em |}.

(** The rules of the registry whose start token is [tok]. *)
Definition rules_starting (tok : string) (rs : list InlineRule)
  : list InlineRule :=
  filter (fun r => (start r =? tok)%string) rs.

(** [c] does not occur in [s]. *)
Definition lacks (c : ascii) (s : string) : bool :=
  all_chars (fun x => negb (x =? c)%char) s.

(** No line terminator in [s]: [.] crosses all of it. *)
Definition one_line (s : string) : bool := all_chars Regexp.dot s.

(** A parameter written plainly: no quote, no closing bracket, no line
    terminator. *)
Definition plain (s : string) : bool :=
  all_chars (fun x => negb (Regexp.is_quote x) && negb (x =? "]")%char
                      && Regexp.dot x) s.

(** The empty string or one quote character. *)
Definition opt_quote (q : string) : bool :=
  match q with
  | EmptyString => true
  | String c EmptyString => Regexp.is_quote c
  | _ => false
  end.

(** Statement of the specification, in its words: the span is cut at its
    first closing bracket, into a prefix and the contents. *)
Definition split_at_first_bracket (s : string) : option (string * string) :=
  match indexOf "]" s with
  | Some k => Some (take k s, slice (S k) s)
  | None => None
  end.

(** The prefix with at most one layer of surrounding quotes taken off: the
    four strings this allows. *)
Definition strip_first (s : string) : string :=
  match s with
  | String c s' => if Regexp.is_quote c then s' else s
  | EmptyString => s
  end.

Fixpoint strip_last (s : string) : string :=
  match s with
  | String c EmptyString => if Regexp.is_quote c then "" else s
  | String c s' => String c (strip_last s')
  | EmptyString => s
  end.

Definition strippings (s : string) : list string :=
  [s; strip_first s; strip_last s; strip_last (strip_first s)].

(** [s] contains [pat] up to the case of letters. *)
Definition contains_ci (pat s : string) : Prop :=
  exists pre m post,
    s = (pre ++ m ++ post)%string /\ toLowerCase m = pat.

(** What one sub-line of a [list] block contributes: an [li] holding the
    hook's result on the text after the marker, when the sub-line begins
    with the marker and the result passes the test [if (li)]; nothing
    otherwise. *)
Definition list_item (hook : string -> JsVal) (line : string) : list JsVal :=
  if String.prefix "[*]" line then
    let li := hook (slice 3 line) in
    if truthy li then [JArr (concat [JStr "li"] li)] else []
  else [].

Definition list_items (hook : string -> JsVal) (blockContents : list string)
  : list JsVal :=
  flat_map (fun bc => flat_map (list_item hook) (split_lf bc)) blockContents.

(** The node a [list] block opens with: [ol] with the captured type, or
    [ul]. *)
Definition list_head (matches : list JsVal) : list JsVal :=
  if truthy (at_index matches 1)
  then [JStr "ol"; JObj [("type", at_index matches 1)]]
  else [JStr "ul"].

(** The rule [replaceBBCodeParamsRaw] registers for the spelling [t] of a
    tag. *)
Definition param_rule (t : string) (em : ParamsEmitter) : InlineRule :=
  tag_rule ("[" ++ t ++ "=") ("[/" ++ t ++ "]") true (params_emitter em).



(** Two [this] objects whose hooks agree on the texts shorter than [n]. *)
Definition agree (n : nat) (t1 t2 : This) : Prop :=
  forall s, String.length s < n -> processInline t1 s = processInline t2 s.

(** A rule is local when its start token is not empty and its emitter
    re-enters inline processing, if at all, on texts shorter than the span
    it is given: a raw rule gives the same node for two [this] objects that
    agree below the length of the span, any other rule for any two. *)
Definition local (r : InlineRule) : Prop :=
  start r <> ""%string
  /\ if rawContents r
     then forall t1 t2 s,
            agree (String.length s) t1 t2 ->
            emitter r t1 (JStr s) = emitter r t2 (JStr s)
     else forall t1 t2 c, emitter r t1 c = emitter r t2 c.

(** A node keeps the contents [l]: its items end with [l], or its last item
    is a node whose items end with [l]. *)
Definition keeps (l : list JsVal) (node : JsVal) : Prop :=
  (exists pre, node = JArr (pre ++ l))
  \/ (exists pre pre', node = JArr (pre ++ [JArr (pre' ++ l)])).

(** The empty string or one word character. *)
Definition opt_word (w : string) : bool :=
  match w with
  | EmptyString => true
  | String c EmptyString => is_word_char c
  | _ => false
  end.

(** The second item of the match array of the list start pattern: the
    captured word character, [undefined] when there is none. *)
Definition captured (w : string) : JsVal :=
  match w with
  | EmptyString => JUndefined
  | _ => JStr w
  end.

(** Statement of the specification, in its words: the result of the hook is
    non-empty. *)
Definition non_empty (v : JsVal) : bool :=
  match v with
  | JUndefined => false
  | JBool b => b
  | JStr s => negb (s =? "")%string
  | JArr [] => false
  | JArr (_ :: _) => true
  | JObj _ => true
  end.

(** Statement of the specification, in its words: a sub-line that begins
    with the marker gives one [li] if the result of the hook is non-empty. *)
Definition claimed_list_item (hook : string -> JsVal) (line : string)
  : list JsVal :=
  if String.prefix "[*]" line then
    let li := hook (slice 3 line) in
    if non_empty li then [JArr (concat [JStr "li"] li)] else []
  else [].


(** One of the two start tokens is a prefix of the other. *)
Definition compatible (p s : string) : bool :=
  String.prefix s p || String.prefix p s.

(* ================================================================== *)
(** ** Strings *)
(* ================================================================== *)

Section Strings.

Local Open Scope string_scope.

Lemma prefix_cons (a b : ascii) (s t : string) :
  String.prefix (String a s) (String b t)
  = if ascii_dec a b then String.prefix s t else false.
Proof. reflexivity. Qed.

Lemma prefix_nil (s : string) : String.prefix "" s = true.
Proof. now destruct s. Qed.

Lemma prefix_app (p s : string) : String.prefix p (p ++ s) = true.
Proof.
  induction p as [|a p IH]; simpl; [apply prefix_nil|].
  destruct (ascii_dec a a); [exact IH | congruence].
Qed.

Lemma slice_app (p s : string) : slice (String.length p) (p ++ s) = s.
Proof. induction p as [|a p IH]; simpl; [now destruct s | exact IH]. Qed.

Lemma take_app (p s : string) : take (String.length p) (p ++ s) = p.
Proof.
  induction p as [|a p IH]; simpl; [now destruct s | now rewrite IH].
Qed.

Lemma append_nil_r (s : string) : s ++ "" = s.
Proof. induction s as [|a s IH]; simpl; [reflexivity | now rewrite IH]. Qed.

Lemma append_assoc (a b c : string) : (a ++ b) ++ c = a ++ (b ++ c).
Proof. induction a as [|x a IH]; simpl; [reflexivity | now rewrite IH]. Qed.

Lemma length_app (a b : string) :
  String.length (a ++ b) = String.length a + String.length b.
Proof. induction a as [|x a IH]; simpl; [reflexivity | now rewrite IH]. Qed.

Lemma all_chars_cons (p : ascii -> bool) (c : ascii) (s : string) :
  all_chars p (String c s) = p c && all_chars p s.
Proof. reflexivity. Qed.

Lemma all_chars_app (p : ascii -> bool) (a b : string) :
  all_chars p (a ++ b) = all_chars p a && all_chars p b.
Proof.
  induction a as [|x a IH]; [reflexivity|].
  simpl append. rewrite !all_chars_cons, IH. now rewrite andb_assoc.
Qed.

Lemma indexOf_zero (pat s : string) :
  indexOf pat s = Some 0 <-> String.prefix pat s = true.
Proof.
  destruct s as [|c s]; cbn [indexOf].
  - destruct (String.prefix pat ""); split; congruence.
  - destruct (String.prefix pat (String c s)); [tauto|].
    destruct (indexOf pat s); simpl; split; congruence.
Qed.

(** A prefix test on a text with a known head is settled by the head,
    unless the two are compatible. *)
Lemma prefix_head (s p rest : string) :
  String.prefix s (p ++ rest) = true -> compatible p s = true.
Proof.
  unfold compatible. revert p.
  induction s as [|a s IH]; intros p H.
  - now destruct p.
  - destruct p as [|b p].
    + reflexivity.
    + simpl in H |- *. destruct (ascii_dec a b) as [->|]; [|discriminate].
      destruct (ascii_dec b b); [|congruence]. now apply IH.
Qed.

(** When the first character of a token does not come back in the token, an
    occurrence cannot straddle the end of [x]. *)
Lemma prefix_no_straddle (c : ascii) (t x tail : string) :
  lacks c t = true ->
  String.prefix t x = false ->
  String.prefix t (x ++ String c tail) = false.
Proof.
  revert x. induction t as [|a t IH]; intros x Hc Hp.
  - now destruct x.
  - unfold lacks in Hc. rewrite all_chars_cons in Hc.
    apply andb_true_iff in Hc as [Ha Ht].
    destruct x as [|b x]; simpl in *.
    + destruct (ascii_dec a c) as [->|]; [|reflexivity].
      now rewrite Ascii.eqb_refl in Ha.
    + destruct (ascii_dec a b); [|reflexivity]. now apply IH.
Qed.

Lemma indexOf_app (c : ascii) (t x rest : string) :
  lacks c t = true ->
  indexOf (String c t) x = None ->
  indexOf (String c t) (x ++ String c t ++ rest) = Some (String.length x).
Proof.
  intros Hc. induction x as [|b x IH]; intros Hx.
  - change ("" ++ String c t ++ rest) with (String c t ++ rest).
    destruct (indexOf_zero (String c t) (String c t ++ rest)) as [_ H].
    apply H, prefix_app.
  - change (String b x ++ String c t ++ rest)
      with (String b (x ++ String c t ++ rest)).
    cbn [indexOf String.length] in Hx |- *.
    destruct (String.prefix (String c t) (String b x)) eqn:Hp;
      [discriminate|].
    destruct (indexOf (String c t) x) eqn:Hi; [discriminate|].
    assert (String.prefix (String c t) (String b (x ++ String c t ++ rest))
            = false) as ->.
    { rewrite prefix_cons in Hp |- *. destruct (ascii_dec c b); [|reflexivity].
      change (String c t ++ rest) with (String c (t ++ rest)).
      now apply prefix_no_straddle. }
    now rewrite IH.
Qed.
(** A text without the first character of the token does not hold it. *)
Lemma indexOf_lacks (c : ascii) (t x : string) :
  lacks c x = true -> indexOf (String c t) x = None.
Proof.
  induction x as [|b x IH]; intros H; [reflexivity|].
  unfold lacks in H. rewrite all_chars_cons in H.
  apply andb_true_iff in H as [Hb Hx].
  cbn [indexOf]. rewrite prefix_cons.
  destruct (ascii_dec c b) as [->|].
  - now rewrite Ascii.eqb_refl in Hb.
  - now rewrite (IH Hx).
Qed.

End Strings.

(* ================================================================== *)
(** ** The parameter pattern *)
(* ================================================================== *)

Section ParamsPattern.

Local Open Scope string_scope.

Lemma quote_is_dot (c : ascii) : Regexp.is_quote c = true -> Regexp.dot c = true.
Proof.
  unfold Regexp.is_quote. intros H. apply orb_true_iff in H as [H|H];
    apply Ascii.eqb_eq in H; subst; reflexivity.
Qed.

Lemma quote_not_bracket (c : ascii) :
  Regexp.is_quote c = true -> negb (c =? "]")%char = true.
Proof.
  unfold Regexp.is_quote. intros H. apply orb_true_iff in H as [H|H];
    apply Ascii.eqb_eq in H; subst; reflexivity.
Qed.

Lemma close_inv (s rest : string) :
  Regexp.close s = Some rest -> s = String "]" rest /\ one_line rest = true.
Proof.
  unfold Regexp.close. destruct s as [|c s]; [discriminate|].
  destruct (Ascii.eqb_spec c "]") as [->|Hne].
  - fold (one_line s). destruct (one_line s) eqn:E; [|discriminate].
    intros [= <-]. now split.
  - destruct c as [[] [] [] [] [] [] [] []]; try discriminate.
    now contradiction Hne.
Qed.

Lemma close_bracket (rest : string) :
  Regexp.close (String "]" rest)
  = if one_line rest then Some rest else None.
Proof. reflexivity. Qed.

Lemma close_other (c : ascii) (s : string) :
  c <> "]"%char -> Regexp.close (String c s) = None.
Proof.
  intros Hne. unfold Regexp.close.
  destruct c as [[] [] [] [] [] [] [] []]; try reflexivity.
  now contradiction Hne.
Qed.

(** What [quote_close] accepts: an optional quote, the bracket, and a rest
    without line terminator. *)
Lemma quote_close_inv (s rest : string) :
  Regexp.quote_close s = Some rest ->
  exists q, opt_quote q = true /\ s = q ++ String "]" rest
            /\ one_line rest = true.
Proof.
  unfold Regexp.quote_close. destruct s as [|c s].
  - intros H. apply close_inv in H as [H _]. discriminate.
  - destruct (Regexp.is_quote c) eqn:Hq.
    + destruct (Regexp.close s) eqn:Hc.
      * intros [= <-]. apply close_inv in Hc as [-> Hl].
        exists (String c ""). simpl. now rewrite Hq.
      * intros H. apply close_inv in H as [[= -> ->] _]. discriminate.
    + intros H. apply close_inv in H as [H Hl]. exists "". now split.
Qed.

Lemma lazy_rest_sound (s taken m1 rest : string) :
  Regexp.lazy_rest taken s = Some (m1, rest) ->
  exists mid q,
    m1 = taken ++ mid /\ s = mid ++ q ++ String "]" rest
    /\ opt_quote q = true /\ lacks "]" mid = true /\ one_line s = true.
Proof.
  revert taken. induction s as [|c s IH]; intros taken.
  - cbn. discriminate.
  - cbn [Regexp.lazy_rest].
    destruct (Regexp.quote_close (String c s)) as [r|] eqn:Hqc.
    + intros [= <- <-]. apply quote_close_inv in Hqc as (q & Hq & Hs & Hl).
      exists "", q. rewrite append_nil_r. repeat split; try assumption.
      rewrite Hs. unfold one_line in *. rewrite all_chars_app, all_chars_cons.
      rewrite Hl. destruct q as [|a [|]]; try discriminate; [reflexivity|].
      simpl in Hq. cbn. now rewrite (quote_is_dot a Hq).
    + destruct (Regexp.dot c) eqn:Hd; [|discriminate].
      intros H. apply IH in H as (mid & q & Hm & Hs & Hq & Hb & Hl).
      exists (String c mid), q.
      rewrite Hm, append_assoc. repeat split; try assumption.
      * cbn [append]. now rewrite <- Hs.
      * unfold lacks. rewrite all_chars_cons. fold (lacks "]" mid).
        rewrite Hb, andb_true_r.
        destruct (Ascii.eqb_spec c "]") as [->|]; [|reflexivity].
        exfalso. unfold Regexp.quote_close in Hqc. cbn in Hqc.
        fold (one_line s) in Hqc. now rewrite Hl in Hqc.
      * unfold one_line in *. now rewrite all_chars_cons, Hd, Hl.
Qed.

Lemma lazy_group_sound (s m1 rest : string) :
  Regexp.lazy_group s = Some (m1, rest) ->
  exists c mid q,
    m1 = String c mid /\ s = m1 ++ q ++ String "]" rest
    /\ opt_quote q = true /\ lacks "]" (mid ++ q) = true
    /\ one_line s = true.
Proof.
  unfold Regexp.lazy_group. destruct s as [|c s]; [discriminate|].
  destruct (Regexp.dot c) eqn:Hd; [|discriminate].
  intros H. apply lazy_rest_sound in H as (mid & q & Hm & Hs & Hq & Hb & Hl).
  exists c, mid, q. cbn [append] in Hm. subst m1.
  repeat split; try assumption.
  - cbn [append]. now rewrite <- Hs.
  - unfold lacks in *. rewrite all_chars_app, Hb.
    destruct q as [|a [|]]; try discriminate; [reflexivity|].
    cbn in Hq |- *. now rewrite (quote_not_bracket a Hq).
  - unfold one_line in *. now rewrite all_chars_cons, Hd, Hl.
Qed.

(** Every match of the parameter pattern has this shape: an optional
    opening quote, a parameter of one character at least, an optional
    closing quote, the first closing bracket met after the first character
    of the parameter, and the contents; and no line terminator anywhere. *)
Lemma params_exec_sound (s param contents : string) :
  Regexp.params_exec s = Some (param, contents) ->
  exists q1 q2 c p',
    param = String c p'
    /\ s = q1 ++ param ++ q2 ++ String "]" contents
    /\ opt_quote q1 = true /\ opt_quote q2 = true
    /\ lacks "]" (p' ++ q2) = true
    /\ one_line s = true.
Proof.
  unfold Regexp.params_exec. destruct s as [|a s].
  - discriminate.
  - assert (Hplain : Regexp.lazy_group (String a s) = Some (param, contents) ->
      exists q1 q2 c p',
        param = String c p'
        /\ String a s = q1 ++ param ++ q2 ++ String "]" contents
        /\ opt_quote q1 = true /\ opt_quote q2 = true
        /\ lacks "]" (p' ++ q2) = true
        /\ one_line (String a s) = true).
    { intros H. apply lazy_group_sound in H as (c & mid & q & Hm & Hs & Hq & Hb & Hl).
      exists "", q, c, mid. repeat split; assumption. }
    destruct (Regexp.is_quote a) eqn:Hq; [|exact Hplain].
    destruct (Regexp.lazy_group s) as [[m1 r]|] eqn:Hg; [|exact Hplain].
    intros [= -> ->].
    apply lazy_group_sound in Hg as (c & mid & q & Hm & Hs & Hq2 & Hb & Hl).
    exists (String a ""), q, c, mid. repeat split; try assumption.
    + cbn [append]. now rewrite <- Hs.
    + unfold one_line in *. now rewrite all_chars_cons, (quote_is_dot a Hq), Hl.
Qed.


Lemma lazy_rest_plain (p taken contents : string) :
  plain p = true -> one_line contents = true ->
  Regexp.lazy_rest taken (p ++ String "]" contents)
  = Some (taken ++ p, contents).
Proof.
  intros Hp Hc. revert taken. induction p as [|a p IH]; intros taken.
  - cbn [append Regexp.lazy_rest]. unfold Regexp.quote_close.
    change (Regexp.is_quote "]") with false. cbv iota.
    rewrite close_bracket, Hc. now rewrite append_nil_r.
  - unfold plain in Hp. rewrite all_chars_cons in Hp. fold (plain p) in Hp.
    apply andb_true_iff in Hp as [Ha Hp].
    apply andb_true_iff in Ha as [Ha Hd].
    apply andb_true_iff in Ha as [Hq Hb].
    apply negb_true_iff in Hq, Hb.
    cbn [append Regexp.lazy_rest]. unfold Regexp.quote_close. rewrite Hq.
    rewrite close_other by (intros ->; discriminate).
    rewrite Hd, (IH Hp), append_assoc. reflexivity.
Qed.

(** A plainly written parameter, not empty, is split from the contents at
    the first closing bracket. *)
Lemma params_exec_plain (p contents : string) :
  p <> "" -> plain p = true -> one_line contents = true ->
  Regexp.params_exec (p ++ String "]" contents) = Some (p, contents).
Proof.
  intros Hne Hp Hc. destruct p as [|a p]; [congruence|].
  unfold plain in Hp. rewrite all_chars_cons in Hp. fold (plain p) in Hp.
  apply andb_true_iff in Hp as [Ha Hp].
  apply andb_true_iff in Ha as [Ha Hd].
  apply andb_true_iff in Ha as [Hq Hb].
  apply negb_true_iff in Hq.
  cbn [append]. unfold Regexp.params_exec, Regexp.lazy_group.
  rewrite Hq, Hd. now rewrite lazy_rest_plain.
Qed.

End ParamsPattern.

(* ================================================================== *)
(** ** The inline matcher *)
(* ================================================================== *)

Section Matcher.

Local Open Scope string_scope.

Variable this : This.

Lemma flush_nil : flush "" = [].
Proof. reflexivity. Qed.

(** A rule whose start token is not compatible with the head of the text
    does not fire. *)
Lemma try_rule_incompatible (r : InlineRule) (prev : option ascii)
    (p rest : string) :
  compatible p (start r) = false -> try_rule this r prev (p ++ rest) = None.
Proof.
  intros H. unfold try_rule.
  destruct (String.prefix (start r) (p ++ rest)) eqn:E; [|reflexivity].
  apply prefix_head in E. congruence.
Qed.

(** Only the rules compatible with the head of the text take part. *)
Lemma first_fire_filter (rs : list InlineRule) (prev : option ascii)
    (p rest : string) :
  first_fire this rs prev (p ++ rest)
  = first_fire this (filter (fun r => compatible p (start r)) rs)
      prev (p ++ rest).
Proof.
  induction rs as [|r rs IH]; [reflexivity|].
  cbn [filter first_fire].
  destruct (compatible p (start r)) eqn:E.
  - cbn [first_fire]. now rewrite IH.
  - now rewrite try_rule_incompatible.
Qed.



(** What a rule does on a text that begins with its start token, holds a
    span [x] free of its stop token, and then the stop token. *)
Lemma try_rule_between (r : InlineRule) (prev : option ascii)
    (c : ascii) (t x rest : string) :
  stop r = String c t -> lacks c t = true ->
  indexOf (stop r) x = None ->
  invalidBoundary r prev = false ->
  try_rule this r prev (start r ++ x ++ stop r ++ rest)
  = match emitter r this
            (if rawContents r then JStr x else processInline this x) with
    | JUndefined => None
    | node =>
        Some (String.length (start r) + String.length x
              + String.length (stop r), node)
    end.
Proof.
  intros Hs Hc Hx Hb. unfold try_rule.
  rewrite prefix_app, Hb, slice_app. cbn [negb].
  rewrite Hs in Hx |- *. rewrite (indexOf_app c t x rest Hc Hx), take_app.
  reflexivity.
Qed.

(** Characters covered by the consumed span are passed over. *)
Lemma scan_skip (rs : list InlineRule) (text : string) :
  forall (k : nat) (prev : option ascii) (pending : string),
  String.length text <= k ->
  scan this rs k prev pending text = flush pending.
Proof.
  induction text as [|c text IH]; intros k prev pending Hk; [reflexivity|].
  cbn [String.length] in Hk. destruct k as [|k]; [lia|].
  cbn [scan]. apply IH. lia.
Qed.

(** When the first rule to fire consumes the whole text, its node is the
    whole output. *)
Lemma scan_whole (rs : list InlineRule) (text : string) (n : nat)
    (node : JsVal) :
  text <> "" -> String.length text <= n ->
  first_fire this rs None text = Some (n, node) ->
  scan this rs 0 None "" text = [node].
Proof.
  intros Hne Hn Hf. destruct text as [|c text]; [congruence|].
  cbn [scan]. rewrite Hf, flush_nil. cbn [app]. f_equal.
  rewrite scan_skip; [reflexivity|]. cbn [String.length] in Hn. lia.
Qed.



End Matcher.

(* ================================================================== *)
(** ** The depth bound is never reached *)
(* ================================================================== *)

Section Depth.

Local Open Scope string_scope.

Lemma agree_le (n m : nat) (t1 t2 : This) :
  m <= n -> agree n t1 t2 -> agree m t1 t2.
Proof. intros Hle H s Hs. apply H. lia. Qed.

Lemma length_take (k : nat) (s : string) :
  String.length (take k s) <= String.length s.
Proof.
  revert s. induction k as [|k IH]; intros [|c s]; cbn; try lia.
  specialize (IH s). lia.
Qed.

Lemma length_slice (n : nat) (s : string) :
  String.length (slice n s) = String.length s - n.
Proof.
  revert s. induction n as [|n IH]; intros [|c s]; cbn; try lia. apply IH.
Qed.

Lemma prefix_length (p s : string) :
  String.prefix p s = true -> String.length p <= String.length s.
Proof.
  revert s. induction p as [|a p IH]; intros s H; [cbn; lia|].
  destruct s as [|b s]; [discriminate|].
  rewrite prefix_cons in H. destruct (ascii_dec a b); [|discriminate].
  cbn. specialize (IH s H). lia.
Qed.

(** The emitter of [replaceBBCodeParams] re-enters on the contents, which
    are shorter than the span. *)
Lemma recursive_emitter_local (em : string -> JsVal -> JsVal)
    (t1 t2 : This) (s : string) :
  agree (String.length s) t1 t2 ->
  params_emitter (recursive_emitter em) t1 (JStr s)
  = params_emitter (recursive_emitter em) t2 (JStr s).
Proof.
  intros H. unfold params_emitter. cbn [ToString].
  destruct (Regexp.params_exec s) as [[m1 m2]|] eqn:E; [|reflexivity].
  unfold recursive_emitter. rewrite H; [reflexivity|].
  apply params_exec_sound in E as (q1 & q2 & c & p' & _ & -> & _).
  rewrite !length_app. cbn [String.length]. lia.
Qed.

(** Every rule of the file is local. *)
Lemma rules_local : Forall local rules.
Proof.
  cbv [rules registry script seq replaceBBCode rawBBCode replaceBBCodeParams
       replaceBBCodeParamsRaw inlineBetween replaceBlock registerInline
       registerBlock merge or_else empty_opts empty_registry inline_rules
       block_rules forEach fold_left app flag opt_emitter opt_start opt_stop
       opt_between opt_rawContents opt_wordBoundary opt_spaceBoundary].
  repeat (apply Forall_cons;
          [split; [discriminate|]; cbn [rawContents emitter];
           first [ intros t1 t2 s H; apply recursive_emitter_local; exact H
                 | intros; reflexivity ] |]).
  apply Forall_nil.
Qed.

Lemma try_rule_agree (t1 t2 : This) (r : InlineRule) (prev : option ascii)
    (text : string) :
  local r -> agree (String.length text) t1 t2 ->
  try_rule t1 r prev text = try_rule t2 r prev text.
Proof.
  intros [Hne Hl] Ha. unfold try_rule.
  destruct (String.prefix (start r) text) eqn:Hp; [|reflexivity].
  cbn [negb]. destruct (invalidBoundary r prev); [reflexivity|].
  destruct (indexOf (stop r) (slice (String.length (start r)) text))
    as [k|]; [|reflexivity].
  assert (Hlt : String.length
                  (take k (slice (String.length (start r)) text))
                < String.length text).
  { pose proof (length_take k (slice (String.length (start r)) text)).
    rewrite length_slice in H. apply prefix_length in Hp.
    destruct (start r); [congruence|]. cbn [String.length] in *. lia. }
  destruct (rawContents r).
  - rewrite (Hl t1 t2); [reflexivity|].
    eapply agree_le; [|exact Ha]. lia.
  - rewrite (Ha _ Hlt). now rewrite (Hl t1 t2).
Qed.

Lemma first_fire_agree (t1 t2 : This) (rs : list InlineRule)
    (prev : option ascii) (text : string) :
  Forall local rs -> agree (String.length text) t1 t2 ->
  first_fire t1 rs prev text = first_fire t2 rs prev text.
Proof.
  intros Hl Ha. induction Hl as [|r rs Hr _ IH]; [reflexivity|].
  cbn [first_fire]. now rewrite (try_rule_agree t1 t2 r prev text Hr Ha), IH.
Qed.

Lemma scan_agree (t1 t2 : This) (rs : list InlineRule) (text : string) :
  forall (skip : nat) (prev : option ascii) (pending : string),
  Forall local rs -> agree (String.length text) t1 t2 ->
  scan t1 rs skip prev pending text = scan t2 rs skip prev pending text.
Proof.
  induction text as [|c text IH]; intros skip prev pending Hl Ha;
    [reflexivity|].
  assert (Ha' : agree (String.length text) t1 t2).
  { eapply agree_le; [|exact Ha]. cbn. lia. }
  cbn [scan]. destruct skip as [|k]; [|now apply IH].
  rewrite (first_fire_agree t1 t2 rs prev (String c text) Hl Ha).
  destruct (first_fire t2 rs prev (String c text)) as [[n node]|].
  - now rewrite IH.
  - now apply IH.
Qed.

(** Any two depths above the length of the text give the same result. *)
Lemma apply_inline_depth (rs : list InlineRule) :
  Forall local rs ->
  forall (d1 d2 : nat) (text : string),
  String.length text < d1 -> String.length text < d2 ->
  apply_inline rs d1 text = apply_inline rs d2 text.
Proof.
  intros Hl. induction d1 as [|d1 IH]; intros d2 text H1 H2; [lia|].
  destruct d2 as [|d2]; [lia|]. cbn [apply_inline]. f_equal.
  apply scan_agree; [exact Hl|].
  intros s Hs. cbn [processInline]. apply IH; lia.
Qed.

(** With the rules of the file, re-entry at any sufficient depth is the
    processing of the sub-span. *)
Lemma apply_inline_bbcode (d : nat) (text : string) :
  String.length text < d -> apply_inline rules d text = bbcode text.
Proof.
  intros H. unfold bbcode, process.
  apply (apply_inline_depth rules rules_local); lia.
Qed.

End Depth.

(* ================================================================== *)
(** ** The rules of the file at work *)
(* ================================================================== *)

Section Catalogue.

Local Open Scope string_scope.

(** A text made of one start token, a span free of the stop token, and the
    stop token: when the rule is the first of the compatible ones and its
    emitter emits, the output is that one node. *)
Lemma process_tag (rs : list InlineRule) (r : InlineRule)
    (others : list InlineRule) (c : ascii) (t x : string) :
  let text := start r ++ x ++ stop r in
  let this := this_for rs (String.length text) in
  let node :=
    emitter r this (if rawContents r then JStr x else processInline this x) in
  filter (fun r' => compatible (start r) (start r')) rs = r :: others ->
  start r <> "" ->
  stop r = String c t -> lacks c t = true ->
  indexOf (stop r) x = None ->
  node <> JUndefined ->
  process rs text = JArr [node].
Proof.
  intros text this node Hf Hne Hs Hc Hx Hn.
  unfold process. cbn [apply_inline]. fold this. f_equal.
  assert (Hfire : first_fire this rs None text
                  = Some (String.length text, node)).
  { unfold text. rewrite first_fire_filter, Hf. cbn [first_fire].
    rewrite <- (append_nil_r (stop r)) at 1. rewrite <- append_assoc.
    rewrite append_assoc.
    rewrite (try_rule_between this r None c t x "" Hs Hc Hx eq_refl).
    fold node. rewrite !length_app, Nat.add_assoc.
    destruct node; congruence. }
  apply (scan_whole this rs text (String.length text) node);
    [|lia|exact Hfire].
  unfold text. destruct (start r); [congruence|discriminate].
Qed.

Lemma rules_b :
  filter (fun r => compatible "[b]" (start r)) rules
  = [tag_rule "[b]" "[/b]" false emit_b].
Proof. reflexivity. Qed.

Lemma rules_B :
  filter (fun r => compatible "[B]" (start r)) rules
  = [tag_rule "[B]" "[/B]" false emit_b].
Proof. reflexivity. Qed.

(** The [b] pair around a span without the closing token. *)
Lemma bbcode_b (x : string) :
  indexOf "[/b]" x = None ->
  bbcode ("[b]" ++ x ++ "[/b]")
  = JArr [JArr (concat [JStr "span"; JObj [("class", JStr "bbcode-b")]]
                  (bbcode x))].
Proof.
  intros Hx. rewrite <- (apply_inline_bbcode (7 + String.length x) x) by lia.
  unfold bbcode at 1.
  pose proof (process_tag rules (tag_rule "[b]" "[/b]" false emit_b) []
                "[" "/b]" x rules_b) as H.
  cbv zeta in H.
  cbn [tag_rule start stop rawContents emitter emit_b this_for processInline]
    in H.
  rewrite H; try reflexivity; try assumption; try discriminate.
  rewrite !length_app. cbn [String.length].
  replace (3 + (String.length x + 4)) with (7 + String.length x) by lia.
  reflexivity.
Qed.

Lemma bbcode_B (x : string) :
  indexOf "[/B]" x = None ->
  bbcode ("[B]" ++ x ++ "[/B]")
  = JArr [JArr (concat [JStr "span"; JObj [("class", JStr "bbcode-b")]]
                  (bbcode x))].
Proof.
  intros Hx. rewrite <- (apply_inline_bbcode (7 + String.length x) x) by lia.
  unfold bbcode at 1.
  pose proof (process_tag rules (tag_rule "[B]" "[/B]" false emit_b) []
                "[" "/B]" x rules_B) as H.
  cbv zeta in H.
  cbn [tag_rule start stop rawContents emitter emit_b this_for processInline]
    in H.
  rewrite H; try reflexivity; try assumption; try discriminate.
  rewrite !length_app. cbn [String.length].
  replace (3 + (String.length x + 4)) with (7 + String.length x) by lia.
  reflexivity.
Qed.

End Catalogue.

Section Registration.

Local Open Scope string_scope.

(** The two rules one call of [replaceBBCode] adds. *)
Lemma replaceBBCode_inline (tag : string) (em : Emitter)
    (opts : option Opts) (reg : Registry) :
  let o := match opts with Some o => o | None => empty_opts end in
  let rule (t : string) :=
    {| start := "[" ++ t ++ "]"; stop := "[/" ++ t ++ "]";
       rawContents := flag (opt_rawContents o);
       wordBoundary := flag (opt_wordBoundary o);
       spaceBoundary := flag (opt_spaceBoundary o);
       emitter := em |} in
  inline_rules (replaceBBCode tag em opts reg)
  = (inline_rules reg ++ [rule tag; rule (toUpperCase tag)])%list
  /\ block_rules (replaceBBCode tag em opts reg) = block_rules reg.
Proof.
  intros o rule. unfold replaceBBCode, inlineBetween.
  fold o. destruct o; cbn. rewrite <- app_assoc. now split.
Qed.

(** The two rules one call of [replaceBBCodeParamsRaw] adds. *)
Lemma replaceBBCodeParamsRaw_inline (tag : string) (em : ParamsEmitter)
    (reg : Registry) :
  let rule (t : string) :=
    tag_rule ("[" ++ t ++ "=") ("[/" ++ t ++ "]") true (params_emitter em) in
  inline_rules (replaceBBCodeParamsRaw tag em reg)
  = (inline_rules reg ++ [rule tag; rule (toUpperCase tag)])%list
  /\ block_rules (replaceBBCodeParamsRaw tag em reg) = block_rules reg.
Proof.
  intros rule. unfold replaceBBCodeParamsRaw, inlineBetween. cbn.
  rewrite <- app_assoc. now split.
Qed.

(** In a plainly written span the first closing bracket ends the
    parameter. *)
Lemma split_plain (p contents : string) :
  plain p = true ->
  split_at_first_bracket (p ++ String "]" contents) = Some (p, contents).
Proof.
  intros Hp. unfold split_at_first_bracket.
  assert (Hl : lacks "]" p = true).
  { unfold plain in Hp. unfold lacks.
    induction p as [|a p IH]; [reflexivity|].
    rewrite all_chars_cons in Hp |- *.
    apply andb_true_iff in Hp as [Ha Hp].
    apply andb_true_iff in Ha as [Ha _].
    apply andb_true_iff in Ha as [_ Ha].
    now rewrite Ha, IH. }
  pose proof (indexOf_app "]" "" p contents eq_refl
                (indexOf_lacks "]" "" p Hl)) as H.
  cbn [append] in H. rewrite H.
  rewrite take_app.
  change (S (String.length p)) with (1 + String.length p).
  replace (1 + String.length p)
    with (String.length (p ++ "]")) by (rewrite length_app; cbn; lia).
  change (String "]" contents) with ("]" ++ contents).
  rewrite <- append_assoc, slice_app. reflexivity.
Qed.

End Registration.

(* ================================================================== *)
(** ** The claims *)
(* ================================================================== *)

(** C1.  The [b] tag is registered with one emitter; on every contents
    sequence it returns a [span] whose [class] attribute is [bbcode-b] and
    whose children are the processed contents, in order.  Around a span [x]
    that does not hold the closing token, the pair yields that element with
    the processing of [x] as children; the input [[b]x[/b]] yields the
    element [span] with attributes [{class: bbcode-b}] and the one child
    [Text x]. *)
Theorem b_emits_span :
  rules_starting "[b]" rules = [tag_rule "[b]" "[/b]" false emit_b]
  /\ (forall (this : This) (contents : list JsVal),
        let node := emit_b this (JArr contents) in
        node = JArr (JStr "span" :: JObj [("class", JStr "bbcode-b")]
                       :: contents)
        /\ Node.tag_of node = Some "span"%string
        /\ Node.get "class" (Node.attrs_of node) = JStr "bbcode-b"
        /\ Node.children_of node = contents)
  /\ (forall x : string,
        indexOf "[/b]" x = None ->
        bbcode ("[b]" ++ x ++ "[/b]")
        = JArr [JArr (concat [JStr "span"; JObj [("class", JStr "bbcode-b")]]
                        (bbcode x))])
  /\ bbcode "[b]x[/b]"
     = JArr [JArr [JStr "span"; JObj [("class", JStr "bbcode-b")]; JStr "x"]]
  /\ Node.of_jsonml
       (JArr [JStr "span"; JObj [("class", JStr "bbcode-b")]; JStr "x"])
     = Some (Node.Element "span" [("class", "bbcode-b")%string]
               [Node.Text "x"]).
Proof.
  split; [reflexivity|]. split; [|split; [exact bbcode_b|split; reflexivity]].
  intros this contents. cbn. repeat split.
Qed.

Lemma b_emits_span_witness :
  indexOf "[/b]" "bold [i]text[/i]" = None
  /\ bbcode ("[b]" ++ "bold [i]text[/i]" ++ "[/b]")
     = JArr [JArr (concat [JStr "span"; JObj [("class", JStr "bbcode-b")]]
                     (bbcode "bold [i]text[/i]"))].
Proof.
  split; [reflexivity|].
  exact (proj1 (proj2 (proj2 b_emits_span)) "bold [i]text[/i]"%string
           eq_refl).
Defined.

(** C2, as stated, fails.  Take the span of four characters: closing
    bracket, [a], closing bracket, [b].  Its first closing bracket is at the
    very start; the pattern, whose parameter group needs one character,
    cuts at the second one, so the parameter is the first two characters and
    the contents are [b], where a cut at the first bracket gives an empty
    prefix and three characters of contents.  With the [url] tag around it
    the span yields a link to the first two characters around [b]. *)
Lemma params_split_counterexample :
  Regexp.params_exec "]a]b" = Some ("]a", "b")%string
  /\ split_at_first_bracket "]a]b" = Some ("", "a]b")%string
  /\ bbcode "[url=]a]b[/url]"
     = JArr [JArr [JStr "a"; JObj [("href", JStr "]a"); data_bbcode];
                   JStr "b"]]
  /\ ~ (forall s param contents : string,
         Regexp.params_exec s = Some (param, contents) ->
         exists prefix,
           split_at_first_bracket s = Some (prefix, contents)
           /\ In param (strippings prefix)).
Proof.
  split; [reflexivity|]. split; [reflexivity|]. split; [reflexivity|].
  intros H. destruct (H "]a]b" "]a" "b" eq_refl)%string as (prefix & Hs & _).
  discriminate Hs.
Qed.

(** C2, amended.  On every match the emitter of [replaceBBCodeParamsRaw]
    calls the given emitter on the two groups, and the span reads: an
    optional opening quote, the parameter (never empty), an optional closing
    quote, a closing bracket, the contents; that bracket is the first one
    after the first character of the parameter, and the span has no line
    terminator.  A parameter written plainly is cut from the contents at the
    first closing bracket.  [[url=http://example.com]click[/url]] yields the
    element [a] with [href] and [data-bbcode] and the child [Text click]. *)
Theorem params_split :
  (forall (em : ParamsEmitter) (this : This) (s param contents : string),
     Regexp.params_exec s = Some (param, contents) ->
     params_emitter em this (JStr s) = em this param contents
     /\ exists q1 q2 c p',
          param = String c p'
          /\ s = (q1 ++ param ++ q2 ++ String "]" contents)%string
          /\ opt_quote q1 = true /\ opt_quote q2 = true
          /\ lacks "]" (p' ++ q2) = true
          /\ one_line s = true)
  /\ (forall p contents : string,
        p <> "" -> plain p = true -> one_line contents = true ->
        Regexp.params_exec (p ++ String "]" contents) = Some (p, contents)
        /\ split_at_first_bracket (p ++ String "]" contents)
           = Some (p, contents))
  /\ bbcode "[url=http://example.com]click[/url]"
     = JArr [JArr [JStr "a";
                   JObj [("href", JStr "http://example.com");
                         ("data-bbcode", JBool true)];
                   JStr "click"]]
  /\ Node.of_jsonml
       (JArr [JStr "a";
              JObj [("href", JStr "http://example.com");
                    ("data-bbcode", JBool true)];
              JStr "click"])
     = Some (Node.Element "a"
               [("href", "http://example.com"); ("data-bbcode", "true")]
               [Node.Text "click"]).
Proof.
  split; [|split; [|split; reflexivity]].
  - intros em this s param contents H. split.
    + unfold params_emitter. cbn [ToString]. now rewrite H.
    + now apply params_exec_sound.
  - intros p contents Hne Hp Hc. split.
    + now apply params_exec_plain.
    + now apply split_plain.
Qed.

Lemma params_split_witness :
  Regexp.params_exec "http://example.com]click"
  = Some ("http://example.com", "click")%string
  /\ params_emitter (recursive_emitter emit_url_param) this_bbcode
       (JStr "http://example.com]click")
     = recursive_emitter emit_url_param this_bbcode
         "http://example.com" "click"
  /\ Regexp.params_exec ("red" ++ String "]" "x") = Some ("red", "x")%string.
Proof.
  split; [reflexivity|]. split.
  - exact (proj1 (proj1 params_split (recursive_emitter emit_url_param)
                    this_bbcode
                    "http://example.com]click"%string
                    "http://example.com"%string "click"%string eq_refl)).
  - refine (proj1 (proj1 (proj2 params_split) "red"%string "x"%string
                     _ eq_refl eq_refl)).
    discriminate.
Defined.

(** C3, as stated, fails: with the inner text [a[/b]c] the lower-case pair
    closes at the inner [[/b]], the upper-case pair at its own [[/B]], and
    the two trees differ. *)
Lemma case_pair_counterexample :
  bbcode ("[b]" ++ "a[/b]c" ++ "[/b]")
  = JArr [JArr [JStr "span"; JObj [("class", JStr "bbcode-b")]; JStr "a"];
          JStr "c[/b]"]
  /\ bbcode ("[B]" ++ "a[/b]c" ++ "[/B]")
     = JArr [JArr [JStr "span"; JObj [("class", JStr "bbcode-b")];
                   JStr "a[/b]c"]]
  /\ ~ (forall x : string,
         bbcode ("[B]" ++ x ++ "[/B]") = bbcode ("[b]" ++ x ++ "[/b]")).
Proof.
  assert (E1 : bbcode ("[b]" ++ "a[/b]c" ++ "[/b]")
     = JArr [JArr [JStr "span"; JObj [("class", JStr "bbcode-b")]; JStr "a"];
             JStr "c[/b]"]) by reflexivity.
  assert (E2 : bbcode ("[B]" ++ "a[/b]c" ++ "[/B]")
     = JArr [JArr [JStr "span"; JObj [("class", JStr "bbcode-b")];
                   JStr "a[/b]c"]]) by reflexivity.
  split; [exact E1|]. split; [exact E2|].
  intros H. specialize (H "a[/b]c"%string). rewrite E1, E2 in H.
  discriminate H.
Qed.

(** C3, amended.  [replaceBBCode] adds exactly two inline rules, after
    those already there: one with the tokens [[tag]] and [[/tag]] as given,
    one with the tag in upper case, both with the given emitter and the
    flags of [opts].  For every inner text [x] that holds neither [[/b]]
    nor [[/B]], [[B]x[/B]] and [[b]x[/b]] yield the same tree: the [span] of
    class [bbcode-b] around the processing of [x]. *)
Theorem replaceBBCode_two_rules :
  (forall (tag : string) (em : Emitter) (opts : option Opts)
          (reg : Registry),
     let o := match opts with Some o => o | None => empty_opts end in
     let rule (t : string) :=
       {| start := "[" ++ t ++ "]"; stop := "[/" ++ t ++ "]";
          rawContents := flag (opt_rawContents o);
          wordBoundary := flag (opt_wordBoundary o);
          spaceBoundary := flag (opt_spaceBoundary o);
          emitter := em |} in
     inline_rules (replaceBBCode tag em opts reg)
     = inline_rules reg ++ [rule tag; rule (toUpperCase tag)]
     /\ block_rules (replaceBBCode tag em opts reg) = block_rules reg)
  /\ (forall x : string,
        indexOf "[/b]" x = None -> indexOf "[/B]" x = None ->
        bbcode ("[B]" ++ x ++ "[/B]") = bbcode ("[b]" ++ x ++ "[/b]")
        /\ bbcode ("[b]" ++ x ++ "[/b]")
           = JArr [JArr (concat
                           [JStr "span"; JObj [("class", JStr "bbcode-b")]]
                           (bbcode x))]).
Proof.
  split.
  - intros tag em opts reg o rule. apply replaceBBCode_inline.
  - intros x Hl Hu. now rewrite bbcode_b, bbcode_B.
Qed.

Lemma replaceBBCode_two_rules_witness :
  indexOf "[/b]" "x" = None /\ indexOf "[/B]" "x" = None
  /\ bbcode ("[B]" ++ "x" ++ "[/B]") = bbcode ("[b]" ++ "x" ++ "[/b]").
Proof.
  split; [reflexivity|]. split; [reflexivity|].
  exact (proj1 (proj2 replaceBBCode_two_rules "x"%string eq_refl eq_refl)).
Defined.

Section Declined.

Local Open Scope string_scope.

Variable this : This.



Lemma lacks_cons (c a : ascii) (s : string) :
  lacks c (String a s) = true <-> a <> c /\ lacks c s = true.
Proof.
  unfold lacks. rewrite all_chars_cons, andb_true_iff, negb_true_iff.
  now rewrite Ascii.eqb_neq.
Qed.

Lemma lacks_app (c : ascii) (a b : string) :
  lacks c (a ++ b) = lacks c a && lacks c b.
Proof. apply all_chars_app. Qed.










End Declined.

Section ParamTags.

Local Open Scope string_scope.




End ParamTags.

Section ListBlock.

Local Open Scope string_scope.

Variable hook : string -> JsVal.

(** The body of the inner loop adds the item of the line. *)
Lemma inner_step (contents : list JsVal) (line : string) :
  match indexOf "[*]" line with
  | Some O =>
      let li := hook (slice 3 line) in
      if truthy li then push contents (JArr (concat [JStr "li"] li))
      else contents
  | _ => contents
  end = (contents ++ list_item hook line)%list.
Proof.
  unfold list_item, push.
  destruct (String.prefix "[*]" line) eqn:Hp.
  - apply indexOf_zero in Hp. rewrite Hp. cbv zeta.
    destruct (truthy (hook (slice 3 line))); [reflexivity|].
    now rewrite app_nil_r.
  - destruct (indexOf "[*]" line) as [[|k]|] eqn:Hi;
      try now rewrite app_nil_r.
    apply indexOf_zero in Hi. congruence.
Qed.

Lemma inner_loop (lines : list string) :
  forall contents : list JsVal,
  forEach lines (fun contents line =>
    match indexOf "[*]" line with
    | Some O =>
        let li := hook (slice 3 line) in
        if truthy li then push contents (JArr (concat [JStr "li"] li))
        else contents
    | _ => contents
    end) contents
  = (contents ++ flat_map (list_item hook) lines)%list.
Proof.
  unfold forEach. induction lines as [|l lines IH]; intros contents.
  - cbn. now rewrite app_nil_r.
  - cbn [fold_left flat_map]. rewrite inner_step, IH, app_assoc.
    reflexivity.
Qed.

Lemma outer_loop (blockContents : list string) :
  forall contents : list JsVal,
  forEach blockContents (fun contents bc =>
    let lines := split_lf bc in
    forEach lines (fun contents line =>
      match indexOf "[*]" line with
      | Some O =>
          let li := hook (slice 3 line) in
          if truthy li then push contents (JArr (concat [JStr "li"] li))
          else contents
      | _ => contents
      end) contents) contents
  = (contents ++ list_items hook blockContents)%list.
Proof.
  unfold list_items.
  induction blockContents as [|bc bcs IH]; intros contents.
  - cbn. now rewrite app_nil_r.
  - unfold forEach at 1. cbn [fold_left flat_map]. cbv zeta.
    rewrite inner_loop. fold (@forEach string (list JsVal)).
    unfold forEach at 1 in IH. rewrite IH, app_assoc. reflexivity.
Qed.

End ListBlock.

Section RawRules.

Local Open Scope string_scope.

(** A rule with [rawContents] hands the span to its emitter as the string
    it is. *)
Lemma try_rule_raw (this : This) (r : InlineRule) (prev : option ascii)
    (text : string) (k : nat) :
  rawContents r = true ->
  String.prefix (start r) text = true ->
  invalidBoundary r prev = false ->
  indexOf (stop r) (slice (String.length (start r)) text) = Some k ->
  try_rule this r prev text
  = match emitter r this
            (JStr (take k (slice (String.length (start r)) text))) with
    | JUndefined => None
    | node =>
        Some (String.length (start r) + k + String.length (stop r), node)
    end.
Proof.
  intros Hr Hp Hb Hi. unfold try_rule. now rewrite Hp, Hb, Hi, Hr.
Qed.



Lemma rules_noparse :
  filter (fun r => compatible "[noparse]" (start r)) rules
  = [tag_rule "[noparse]" "[/noparse]" true emit_noparse].
Proof. reflexivity. Qed.



(** The [noparse] pair around a span without its closing token. *)
Lemma bbcode_noparse (x : string) :
  indexOf "[/noparse]" x = None ->
  bbcode ("[noparse]" ++ x ++ "[/noparse]") = JArr [JStr x].
Proof.
  intros Hx. unfold bbcode.
  pose proof (process_tag rules
                (tag_rule "[noparse]" "[/noparse]" true emit_noparse) []
                "[" "/noparse]" x rules_noparse) as H.
  cbv zeta in H.
  cbn [tag_rule start stop rawContents emitter emit_noparse] in H.
  apply H; try reflexivity; try assumption; discriminate.
Qed.

End RawRules.

(** C8.  When the base-10 parse of the parameter fails or gives 0, the
    emitter of the first [size] registration still returns an element: a
    [span] of class [bbcode-size-1] around the contents.  So does the rule's
    emitter on a span such as [huge]x]: nothing is declined. *)
Theorem size_defaults_to_one :
  (forall (param : string) (contents : JsVal),
     parseInt10 param = NaN \/ parseInt10 param = Int 0 ->
     emit_size_class param contents
     = JArr (concat [JStr "span"; JObj [("class", JStr "bbcode-size-1")]]
               contents)
     /\ emit_size_class param contents <> JUndefined)
  /\ (forall (this : This) (s param contents : string),
        Regexp.params_exec s = Some (param, contents) ->
        parseInt10 param = NaN \/ parseInt10 param = Int 0 ->
        params_emitter (recursive_emitter emit_size_class) this (JStr s)
        = JArr (concat [JStr "span"; JObj [("class", JStr "bbcode-size-1")]]
                  (processInline this contents)))
  /\ parseInt10 "huge" = NaN
  /\ parseInt10 "0" = Int 0
  /\ Regexp.params_exec "huge]x" = Some ("huge", "x")%string.
Proof.
  assert (H1 : forall param contents,
     parseInt10 param = NaN \/ parseInt10 param = Int 0 ->
     emit_size_class param contents
     = JArr (concat [JStr "span"; JObj [("class", JStr "bbcode-size-1")]]
               contents)).
  { intros param contents [H|H]; unfold emit_size_class; now rewrite H. }
  split; [|split; [|repeat split]].
  - intros param contents H. split; [now apply H1|].
    rewrite (H1 param contents H). discriminate.
  - intros this s param contents Hm H. unfold params_emitter.
    cbn [ToString]. rewrite Hm. unfold recursive_emitter. now apply H1.
Qed.

Lemma size_defaults_to_one_witness :
  emit_size_class "huge" (JArr [JStr "x"])
  = JArr [JStr "span"; JObj [("class", JStr "bbcode-size-1")]; JStr "x"]
  /\ params_emitter (recursive_emitter emit_size_class) this_bbcode
       (JStr "0]x")
     = JArr (concat [JStr "span"; JObj [("class", JStr "bbcode-size-1")]]
               (processInline this_bbcode "x")).
Proof.
  split.
  - exact (proj1 (proj1 size_defaults_to_one "huge"%string (JArr [JStr "x"])
                    (or_introl eq_refl))).
  - exact (proj1 (proj2 size_defaults_to_one) this_bbcode
             "0]x"%string "0"%string "x"%string eq_refl (or_intror eq_refl)).
Defined.

Section Spoiler.

Local Open Scope string_scope.

(** Under the [i] flag the four code units of the pattern match exactly the
    code units whose lower case they are. *)
Lemma ci_eq_lt (c : ascii) : Regexp.ci_eq "<" c = (downcase c =? "<")%char.
Proof. destruct c as [[] [] [] [] [] [] [] []]; reflexivity. Qed.

Lemma ci_eq_i (c : ascii) : Regexp.ci_eq "i" c = (downcase c =? "i")%char.
Proof. destruct c as [[] [] [] [] [] [] [] []]; reflexivity. Qed.

Lemma ci_eq_m (c : ascii) : Regexp.ci_eq "m" c = (downcase c =? "m")%char.
Proof. destruct c as [[] [] [] [] [] [] [] []]; reflexivity. Qed.

Lemma ci_eq_g (c : ascii) : Regexp.ci_eq "g" c = (downcase c =? "g")%char.
Proof. destruct c as [[] [] [] [] [] [] [] []]; reflexivity. Qed.

Lemma ci_prefix_img (s : string) :
  Regexp.ci_prefix "<img" s = true <->
  exists m post, s = m ++ post /\ toLowerCase m = "<img".
Proof.
  split.
  - destruct s as [|c1 [|c2 [|c3 [|c4 post]]]]; cbn [Regexp.ci_prefix];
      rewrite ?andb_false_r; try discriminate.
    rewrite ci_eq_lt, ci_eq_i, ci_eq_m, ci_eq_g, !andb_true_iff.
    rewrite !Ascii.eqb_eq. intros (H1 & H2 & H3 & H4 & _).
    exists (String c1 (String c2 (String c3 (String c4 "")))), post.
    split; [reflexivity|]. cbn. now rewrite H1, H2, H3, H4.
  - intros (m & post & -> & Hm).
    destruct m as [|c1 [|c2 [|c3 [|c4 [|c5 m]]]]]; try discriminate Hm.
    cbn in Hm. injection Hm as H1 H2 H3 H4.
    cbn [append Regexp.ci_prefix].
    rewrite ci_eq_lt, ci_eq_i, ci_eq_m, ci_eq_g, H1, H2, H3, H4.
    reflexivity.
Qed.

Lemma ci_search_spec (pat s : string) :
  Regexp.ci_search pat s = true <->
  exists pre rest, s = pre ++ rest /\ Regexp.ci_prefix pat rest = true.
Proof.
  induction s as [|c s IH]; cbn [Regexp.ci_search].
  - rewrite orb_false_r. split.
    + intros H. now exists "", "".
    + intros (pre & rest & Hs & H). destruct pre; [|discriminate].
      cbn in Hs. now subst rest.
  - rewrite orb_true_iff, IH. split.
    + intros [H|(pre & rest & -> & H)].
      * now exists "", (String c s).
      * now exists (String c pre), rest.
    + intros (pre & rest & Hs & H). destruct pre as [|a pre].
      * cbn in Hs. subst rest. now left.
      * cbn in Hs. injection Hs as _ ->. right. now exists pre, rest.
Qed.

(** The test of the spoiler emitter is containment up to case. *)
Lemma img_test_spec (s : string) :
  Regexp.img_test s = true <-> contains_ci "<img" s.
Proof.
  unfold Regexp.img_test, contains_ci. rewrite ci_search_spec. split.
  - intros (pre & rest & -> & H). apply ci_prefix_img in H as (m & post & -> & H).
    now exists pre, m, post.
  - intros (pre & m & post & -> & H). exists pre, (m ++ post).
    split; [reflexivity|]. apply ci_prefix_img. now exists m, post.
Qed.

End Spoiler.

(** C9.  The spoiler emitter, registered for raw contents, returns a [div]
    of class [spoiler] exactly when the contents hold [<img] in any mix of
    upper and lower case, and a [span] of class [spoiler] otherwise; either
    way the raw contents are the one child. *)
Theorem spoiler_div_or_span :
  rules_starting "[spoiler]" rules
  = [tag_rule "[spoiler]" "[/spoiler]" true emit_spoiler]
  /\ (forall (this : This) (s : string),
        contains_ci "<img" s ->
        emit_spoiler this (JStr s)
        = JArr [JStr "div"; JObj [("class", JStr "spoiler")]; JStr s])
  /\ (forall (this : This) (s : string),
        ~ contains_ci "<img" s ->
        emit_spoiler this (JStr s)
        = JArr [JStr "span"; JObj [("class", JStr "spoiler")]; JStr s])
  /\ (forall (this : This) (s : string),
        Node.children_of (emit_spoiler this (JStr s)) = [JStr s]).
Proof.
  split; [reflexivity|]. split; [|split].
  - intros this s H. apply img_test_spec in H.
    unfold emit_spoiler. cbn [ToString]. now rewrite H.
  - intros this s H. unfold emit_spoiler. cbn [ToString].
    destruct (Regexp.img_test s) eqn:E; [|reflexivity].
    apply img_test_spec in E. contradiction.
  - intros this s. unfold emit_spoiler. cbn [ToString].
    now destruct (Regexp.img_test s).
Qed.

Lemma spoiler_div_or_span_witness :
  emit_spoiler this_bbcode (JStr "a <IMG src=x>")
  = JArr [JStr "div"; JObj [("class", JStr "spoiler")];
          JStr "a <IMG src=x>"]
  /\ emit_spoiler this_bbcode (JStr "secret")
     = JArr [JStr "span"; JObj [("class", JStr "spoiler")]; JStr "secret"].
Proof.
  split.
  - refine (proj1 (proj2 spoiler_div_or_span) this_bbcode
              "a <IMG src=x>"%string _).
    exists "a "%string, "<IMG"%string, " src=x>"%string. now split.
  - refine (proj1 (proj2 (proj2 spoiler_div_or_span)) this_bbcode
              "secret"%string _).
    intros H. apply img_test_spec in H. discriminate H.
Defined.

Section CodeBlock.

Local Open Scope string_scope.

Lemma code_not_lf (c : ascii) :
  (c =? "010")%char = false -> (code c =? 10)%nat = false.
Proof.
  intros H. apply Nat.eqb_neq. intros E. apply Ascii.eqb_neq in H.
  apply H. unfold code in E. rewrite <- (ascii_nat_embedding c), E.
  reflexivity.
Qed.

Lemma split_lf_app (l rest : string) :
  lacks "010" l = true ->
  split_lf (l ++ String "010" rest) = l :: split_lf rest.
Proof.
  induction l as [|c l IH]; intros H; [reflexivity|].
  apply lacks_cons in H as [Hc Hl]. apply Ascii.eqb_neq in Hc.
  cbn [append split_lf]. rewrite (code_not_lf c Hc), (IH Hl). reflexivity.
Qed.

Lemma split_lf_line (l : string) :
  lacks "010" l = true -> split_lf l = [l].
Proof.
  induction l as [|c l IH]; intros H; [reflexivity|].
  apply lacks_cons in H as [Hc Hl]. apply Ascii.eqb_neq in Hc.
  cbn [split_lf]. rewrite (code_not_lf c Hc), (IH Hl). reflexivity.
Qed.

(** Joining lines with a line feed loses nothing: splitting gives the lines
    back. *)
Lemma split_join (lines : list string) :
  lines <> [] -> Forall (fun l => lacks "010" l = true) lines ->
  split_lf (join LF lines) = lines.
Proof.
  intros Hne H. induction H as [|l ls Hl Hls IH]; [congruence|].
  destruct ls as [|l2 ls].
  - cbn. now apply split_lf_line.
  - unfold join in *.
    change (String.concat LF (l :: l2 :: ls))
      with (l ++ String "010" (String.concat LF (l2 :: ls))).
    rewrite split_lf_app by assumption. f_equal. apply IH. discriminate.
Qed.

End CodeBlock.

(** C10.  The [code] block emitter returns a [p] holding a [pre] whose one
    child is the accumulated lines joined by a line feed.  The result does
    not depend on [this]: the lines never go back through inline
    processing, and come out as they went in, bracket tokens included. *)
Theorem code_block_is_literal :
  blocks = [code_block; list_block]
  /\ (forall (this : This) (blockContents : list string)
             (matches : list JsVal),
        code_emitter this blockContents matches
        = JArr [JStr "p"; JArr [JStr "pre"; JStr (join LF blockContents)]]
        /\ Node.of_jsonml (code_emitter this blockContents matches)
           = Some (Node.Element "p" []
                     [Node.Element "pre" []
                        [Node.Text (join LF blockContents)]]))
  /\ (forall (this1 this2 : This) (blockContents : list string)
             (matches : list JsVal),
        code_emitter this1 blockContents matches
        = code_emitter this2 blockContents matches)
  /\ (forall lines : list string,
        lines <> [] -> Forall (fun l => lacks "010" l = true) lines ->
        split_lf (join LF lines) = lines)
  /\ (forall this : This,
        code_emitter this ["[b]x[/b]"; "[i]y[/i]"]%string []
        = JArr [JStr "p";
                JArr [JStr "pre";
                      JStr ("[b]x[/b]" ++ LF ++ "[i]y[/i]")%string]]).
Proof.
  split; [reflexivity|]. split; [|split; [|split]].
  - intros this blockContents matches. split; reflexivity.
  - reflexivity.
  - exact split_join.
  - reflexivity.
Qed.

Lemma code_block_is_literal_witness :
  split_lf (join LF ["[b]x[/b]"; "[i]y[/i]"]%string)
  = ["[b]x[/b]"; "[i]y[/i]"]%string.
Proof.
  refine (proj1 (proj2 (proj2 (proj2 code_block_is_literal)))
            ["[b]x[/b]"; "[i]y[/i]"]%string _ _).
  - discriminate.
  - repeat constructor.
Defined.

(* ================================================================== *)
(** ** Further properties of the file *)
(* ================================================================== *)

Section ParamsPatternMore.

Local Open Scope string_scope.

Lemma one_line_cons (c : ascii) (s : string) :
  one_line (String c s) = Regexp.dot c && one_line s.
Proof. reflexivity. Qed.

Lemma one_line_app (a b : string) :
  one_line (a ++ b) = one_line a && one_line b.
Proof. apply all_chars_app. Qed.

(** Once the parameter group has its first character, a closing bracket
    further on, in a text without line terminator, ends the match. *)
Lemma lazy_rest_complete (a b : string) :
  forall taken : string,
  one_line (a ++ String "]" b) = true ->
  Regexp.lazy_rest taken (a ++ String "]" b) <> None.
Proof.
  induction a as [|c a IH]; intros taken Hl.
  - cbn [append] in *. rewrite one_line_cons in Hl.
    apply andb_true_iff in Hl as [_ Hb].
    cbn [Regexp.lazy_rest]. unfold Regexp.quote_close.
    change (Regexp.is_quote "]") with false. cbv iota.
    rewrite close_bracket, Hb. discriminate.
  - cbn [append] in *. rewrite one_line_cons in Hl.
    apply andb_true_iff in Hl as [Hc Hl].
    cbn [Regexp.lazy_rest].
    destruct (Regexp.quote_close (String c (a ++ String "]" b)));
      [discriminate|].
    rewrite Hc. now apply IH.
Qed.

Lemma lazy_group_complete (c : ascii) (a b : string) :
  one_line (String c (a ++ String "]" b)) = true ->
  Regexp.lazy_group (String c (a ++ String "]" b)) <> None.
Proof.
  intros Hl. rewrite one_line_cons in Hl. apply andb_true_iff in Hl as [Hc Hl].
  unfold Regexp.lazy_group. rewrite Hc. now apply lazy_rest_complete.
Qed.

Lemma params_exec_complete (a b : string) :
  a <> "" -> one_line (a ++ String "]" b) = true ->
  Regexp.params_exec (a ++ String "]" b) <> None.
Proof.
  intros Hne Hl. destruct a as [|c a]; [congruence|].
  cbn [append] in *. unfold Regexp.params_exec.
  destruct (Regexp.is_quote c).
  - destruct (Regexp.lazy_group (a ++ String "]" b)); [discriminate|].
    now apply lazy_group_complete.
  - now apply lazy_group_complete.
Qed.

Lemma lazy_rest_quoted (p q2 taken contents : string) :
  plain p = true -> opt_quote q2 = true -> one_line contents = true ->
  Regexp.lazy_rest taken (p ++ q2 ++ String "]" contents)
  = Some (taken ++ p, contents).
Proof.
  intros Hp Hq Hc. revert taken. induction p as [|a p IH]; intros taken.
  - destruct q2 as [|q [|]]; try discriminate Hq.
    + apply (lazy_rest_plain "" taken contents eq_refl Hc).
    + cbn [append Regexp.lazy_rest]. unfold Regexp.quote_close.
      cbn [opt_quote] in Hq. rewrite Hq, close_bracket, Hc.
      now rewrite append_nil_r.
  - unfold plain in Hp. rewrite all_chars_cons in Hp. fold (plain p) in Hp.
    apply andb_true_iff in Hp as [Ha Hp].
    apply andb_true_iff in Ha as [Ha Hd].
    apply andb_true_iff in Ha as [Hq' Hb].
    apply negb_true_iff in Hq', Hb.
    cbn [append Regexp.lazy_rest]. unfold Regexp.quote_close. rewrite Hq'.
    rewrite close_other by (intros ->; discriminate).
    rewrite Hd, (IH Hp), append_assoc. reflexivity.
Qed.

Lemma lazy_group_quoted (p q2 contents : string) :
  p <> "" -> plain p = true -> opt_quote q2 = true ->
  one_line contents = true ->
  Regexp.lazy_group (p ++ q2 ++ String "]" contents) = Some (p, contents).
Proof.
  intros Hne Hp Hq Hc. destruct p as [|a p]; [congruence|].
  unfold plain in Hp. rewrite all_chars_cons in Hp. fold (plain p) in Hp.
  apply andb_true_iff in Hp as [Ha Hp].
  apply andb_true_iff in Ha as [_ Hd].
  cbn [append]. unfold Regexp.lazy_group. rewrite Hd.
  now rewrite lazy_rest_quoted.
Qed.

End ParamsPatternMore.

(** X1.  The parameter pattern of [replaceBBCodeParamsRaw] matches a span
    exactly when the span has no line terminator and has a closing bracket
    after its first character; so the emitter built on it returns
    [undefined] exactly on the other spans, whenever the given emitter
    itself always returns a node. *)
Theorem params_pattern_matches_iff :
  (forall s : string,
     Regexp.params_exec s <> None <->
     one_line s = true
     /\ exists a b : string, a <> ""%string /\ s = (a ++ String "]" b)%string)
  /\ (forall (em : ParamsEmitter) (this : This) (s : string),
        (forall p c, em this p c <> JUndefined) ->
        (params_emitter em this (JStr s) = JUndefined <->
         Regexp.params_exec s = None)).
Proof.
  split.
  - intros s. split.
    + intros H. destruct (Regexp.params_exec s) as [[p c]|] eqn:E;
        [clear H|congruence].
      apply params_exec_sound in E
        as (q1 & q2 & x & p' & -> & Hs & _ & _ & _ & Hl).
      split; [exact Hl|].
      exists (q1 ++ String x p' ++ q2)%string, c. split.
      * destruct q1; discriminate.
      * rewrite Hs, !append_assoc. reflexivity.
    + intros (Hl & a & b & Hne & ->). now apply params_exec_complete.
  - intros em this s Hem. unfold params_emitter. cbn [ToString].
    destruct (Regexp.params_exec s) as [[p c]|]; split; try easy.
    intros H. now apply Hem in H.
Qed.

Lemma params_pattern_matches_iff_witness :
  Regexp.params_exec "x]" <> None
  /\ (params_emitter emit_fphp_param this_bbcode (JStr "]") = JUndefined <->
      Regexp.params_exec "]" = None).
Proof.
  split.
  - apply (proj2 (proj1 params_pattern_matches_iff "x]"%string)).
    split; [reflexivity|]. exists "x"%string, ""%string.
    split; [discriminate|reflexivity].
  - apply (proj2 params_pattern_matches_iff emit_fphp_param this_bbcode
             "]"%string).
    intros p c. discriminate.
Defined.

(** X2.  A parameter written without quote, closing bracket or line
    terminator, and not empty, comes out of the pattern as it is, whether
    or not a quote stands before it and whether or not a quote stands after
    it; the two quotes need not be the same character, and the contents are
    all of the rest. *)
Theorem params_pattern_strips_quotes (q1 q2 p contents : string) :
  opt_quote q1 = true -> opt_quote q2 = true ->
  p <> ""%string -> plain p = true -> one_line contents = true ->
  Regexp.params_exec (q1 ++ p ++ q2 ++ String "]" contents)
  = Some (p, contents).
Proof.
  intros H1 H2 Hne Hp Hc. destruct q1 as [|q [|]]; try discriminate H1.
  - cbn [append]. destruct p as [|a p]; [congruence|].
    pose proof (lazy_group_quoted (String a p) q2 contents Hne Hp H2 Hc) as H.
    cbn [append] in H |- *. unfold Regexp.params_exec.
    unfold plain in Hp. rewrite all_chars_cons in Hp.
    apply andb_true_iff in Hp as [Ha _].
    apply andb_true_iff in Ha as [Ha _].
    apply andb_true_iff in Ha as [Hq _]. apply negb_true_iff in Hq.
    now rewrite Hq.
  - cbn [opt_quote] in H1. cbn [append]. unfold Regexp.params_exec.
    rewrite H1. now rewrite lazy_group_quoted.
Qed.

Lemma params_pattern_strips_quotes_witness :
  Regexp.params_exec
    ("'" ++ "http://example.com" ++ String "034" "" ++ String "]" "click")
  = Some ("http://example.com", "click")%string.
Proof.
  refine (params_pattern_strips_quotes "'"%string (String "034" "")
            "http://example.com"%string "click"%string
            eq_refl eq_refl _ eq_refl eq_refl).
  discriminate.
Defined.

Section EmittersMore.

Local Open Scope string_scope.

Ltac unfold_rules :=
  cbv [rules registry script seq replaceBBCode rawBBCode replaceBBCodeParams
       replaceBBCodeParamsRaw inlineBetween replaceBlock registerInline
       registerBlock merge or_else empty_opts empty_registry inline_rules
       block_rules forEach fold_left app flag opt_emitter opt_start opt_stop
       opt_between opt_rawContents opt_wordBoundary opt_spaceBoundary].

(** On a string, an emitter of the file returns [undefined] only if it is
    the emitter of a parameterized rule and the pattern fails. *)
Lemma rules_decline :
  Forall (fun r =>
            forall (this : This) (s : string),
            emitter r this (JStr s) = JUndefined ->
            Regexp.params_exec s = None
            /\ exists t, start r = "[" ++ t ++ "=") rules.
Proof.
  unfold_rules.
  repeat (apply Forall_cons;
          [intros this s H; cbn [emitter start] in H |- *;
           first [ discriminate H
                 | unfold emit_spoiler in H;
                   destruct (Regexp.img_test (ToString (JStr s)));
                   discriminate H
                 | unfold params_emitter in H; cbn [ToString] in H;
                   destruct (Regexp.params_exec s) as [[p c]|];
                   [discriminate H | split; [reflexivity|eexists; reflexivity]]
                 ] |]).
  apply Forall_nil.
Qed.

(** On processed contents, whatever they are, a rule of the file that is not
    raw returns a node. *)
Lemma rules_emit :
  Forall (fun r =>
            rawContents r = false ->
            forall (this : This) (c : JsVal), emitter r this c <> JUndefined)
         rules.
Proof.
  unfold_rules.
  repeat (apply Forall_cons;
          [cbn [rawContents emitter]; intros Hr;
           first [ discriminate Hr | intros this c; discriminate ] |]).
  apply Forall_nil.
Qed.

(** Every rule of the file that is not raw puts the processed contents at
    the end of its node, or of the one node it holds last. *)
Lemma rules_keep :
  Forall (fun r =>
            rawContents r = false ->
            forall (this : This) (l : list JsVal),
            keeps l (emitter r this (JArr l))) rules.
Proof.
  unfold_rules.
  repeat (apply Forall_cons;
          [cbn [rawContents emitter]; intros Hr;
           first [ discriminate Hr
                 | intros this l;
                   first [ left; eexists; reflexivity
                         | right;
                           exists [JStr "blockquote"], [JStr "div"];
                           reflexivity ] ] |]).
  apply Forall_nil.
Qed.

End EmittersMore.

(** X3.  Among the rules the file registers, an emitter handed a string
    returns [undefined] only when the rule is a parameterized one (start
    token ending with the equal sign) and the parameter pattern fails on
    that string; a rule that is not raw returns a node on any processed
    contents. *)
Theorem only_params_rules_decline (r : InlineRule) :
  In r rules ->
  (forall (this : This) (s : string),
     emitter r this (JStr s) = JUndefined ->
     Regexp.params_exec s = None
     /\ exists t, start r = ("[" ++ t ++ "=")%string)
  /\ (rawContents r = false ->
      forall (this : This) (c : JsVal), emitter r this c <> JUndefined).
Proof.
  intros Hin. split.
  - exact (proj1 (Forall_forall _ _) rules_decline r Hin).
  - exact (proj1 (Forall_forall _ _) rules_emit r Hin).
Qed.

Lemma only_params_rules_decline_witness :
  (forall (this : This) (s : string),
     emitter (param_rule "url" (recursive_emitter emit_url_param)) this
       (JStr s) = JUndefined ->
     Regexp.params_exec s = None
     /\ exists t,
          start (param_rule "url" (recursive_emitter emit_url_param))
          = ("[" ++ t ++ "=")%string)
  /\ forall (this : This) (c : JsVal), emit_b this c <> JUndefined.
Proof.
  split.
  - refine (proj1 (only_params_rules_decline
                     (param_rule "url" (recursive_emitter emit_url_param))
                     _)).
    do 22 right. left. reflexivity.
  - refine (proj2 (only_params_rules_decline
                     (tag_rule "[b]" "[/b]" false emit_b) _) eq_refl).
    left. reflexivity.
Defined.

(** X4.  No wrapping tag of the file loses or reorders its processed
    contents.  Every rule that is not raw returns a node that ends with the
    contents, or with one node that ends with them ([indent]).  The
    emitters registered through [replaceBBCodeParams] end with the
    processing of their contents, but for [rule], which has no children at
    all; the parameterized [fphp] ends with its raw contents. *)
Theorem wrapping_tags_keep_contents :
  (forall r : InlineRule,
     In r rules -> rawContents r = false ->
     forall (this : This) (l : list JsVal), keeps l (emitter r this (JArr l)))
  /\ (forall (em : string -> JsVal -> JsVal),
        In em [emit_url_param; emit_email_param; emit_size_class; emit_color;
               emit_size_font; emit_font; emit_aname; emit_jumpto] ->
        forall (this : This) (p c : string) (l : list JsVal),
        processInline this c = JArr l ->
        exists pre, recursive_emitter em this p c = JArr (pre ++ l))
  /\ (forall (this : This) (p c : string),
        Node.children_of (recursive_emitter emit_rule this p c) = []
        /\ exists pre, emit_fphp_param this p c = JArr (pre ++ [JStr c])).
Proof.
  split; [|split].
  - intros r Hin. exact (proj1 (Forall_forall _ _) rules_keep r Hin).
  - intros em Hin this p c l Hl. unfold recursive_emitter. rewrite Hl.
    cbn [In] in Hin.
    repeat (destruct Hin as [<-|Hin]; [eexists; reflexivity|]).
    contradiction.
  - intros this p c. split; [reflexivity|]. eexists.
    unfold emit_fphp_param.
    change [?a; ?b; JStr c] with ([a; b] ++ [JStr c]). reflexivity.
Qed.

Lemma wrapping_tags_keep_contents_witness :
  keeps [JStr "x"] (emit_indent this_bbcode (JArr [JStr "x"]))
  /\ exists pre,
       recursive_emitter emit_color this_bbcode "red" "x"
       = JArr (pre ++ [JStr "x"]).
Proof.
  split.
  - refine (proj1 wrapping_tags_keep_contents
              (tag_rule "[indent]" "[/indent]" false emit_indent) _ eq_refl
              this_bbcode [JStr "x"]).
    do 60 right. left. reflexivity.
  - refine (proj1 (proj2 wrapping_tags_keep_contents) emit_color _
              this_bbcode "red"%string "x"%string [JStr "x"] eq_refl).
    cbn. tauto.
Defined.

Section ListBlockMore.

Local Open Scope string_scope.

(** The node of a [list] block: its head, then the items of its
    sub-lines. *)
Lemma list_emitter_items (this : This) (blockContents : list string)
    (matches : list JsVal) :
  list_emitter this blockContents matches
  = JArr (list_head matches
          ++ list_items (processInline this) blockContents)%list.
Proof.
  unfold list_emitter. fold (list_head matches). f_equal.
  destruct blockContents as [|bc bcs].
  - cbn. now rewrite app_nil_r.
  - change (0 <? List.length (bc :: bcs))%nat with true. cbv iota zeta.
    apply outer_loop.
Qed.

(** The items depend on the sub-lines only. *)
Lemma list_items_sublines (hook : string -> JsVal)
    (blockContents : list string) :
  list_items hook blockContents
  = flat_map (list_item hook) (flat_map split_lf blockContents).
Proof.
  unfold list_items. induction blockContents as [|bc bcs IH];
    [reflexivity|].
  cbn [flat_map]. now rewrite flat_map_app, IH.
Qed.

(** With a hook that returns arrays the test [if (li)] always passes. *)
Lemma list_item_array (h : string -> list JsVal) (lines : list string) :
  flat_map (list_item (fun s => JArr (h s))) lines
  = map (fun l => JArr (JStr "li" :: h (slice 3 l)))
      (filter (String.prefix "[*]") lines).
Proof.
  induction lines as [|l lines IH]; [reflexivity|].
  cbn [flat_map filter]. unfold list_item at 1.
  destruct (String.prefix "[*]" l); cbn; now rewrite IH.
Qed.

Lemma not_lf (c : ascii) :
  (code c =? 10)%nat = false -> c <> "010"%char.
Proof. intros H ->. discriminate H. Qed.

(** The pieces [split] gives hold no line feed. *)
Lemma split_lf_pieces (s : string) :
  Forall (fun l => lacks "010" l = true) (split_lf s).
Proof.
  induction s as [|c s IH]; [now repeat constructor|].
  cbn [split_lf]. destruct (code c =? 10)%nat eqn:Hc.
  - now constructor.
  - destruct (split_lf s) as [|p ps].
    { constructor; [|constructor].
      apply lacks_cons. split; [now apply not_lf|reflexivity]. }
    inversion IH as [|? ? Hp Hps]; subst. constructor; [|exact Hps].
    apply lacks_cons. split; [now apply not_lf|exact Hp].
Qed.

Lemma flat_map_split_free (lines : list string) :
  Forall (fun l => lacks "010" l = true) lines ->
  flat_map split_lf lines = lines.
Proof.
  induction 1 as [|l ls Hl _ IH]; [reflexivity|].
  cbn [flat_map]. now rewrite (split_lf_line l Hl), IH.
Qed.

Lemma flat_map_split_twice (blockContents : list string) :
  flat_map split_lf (flat_map split_lf blockContents)
  = flat_map split_lf blockContents.
Proof.
  apply flat_map_split_free.
  induction blockContents as [|bc bcs IH]; [constructor|].
  cbn [flat_map]. apply Forall_app. split; [apply split_lf_pieces|exact IH].
Qed.

End ListBlockMore.

(** X5.  When the re-entry hook returns arrays, as a node list is, the
    [list] emitter adds exactly one [li] for each sub-line that begins with
    the marker, in order, holding the hook's result on the rest of the
    sub-line; a marker with nothing after it still gives an [li], without
    children when the hook returns the empty array. *)
Theorem list_block_one_item_per_marker (h : string -> list JsVal)
    (blockContents : list string) (matches : list JsVal) :
  list_emitter {| processInline := fun s => JArr (h s) |}
    blockContents matches
  = JArr (list_head matches
          ++ map (fun l => JArr (JStr "li" :: h (slice 3 l)))
               (filter (String.prefix "[*]")
                  (flat_map split_lf blockContents))).
Proof.
  rewrite list_emitter_items, list_items_sublines.
  cbn [processInline]. now rewrite list_item_array.
Qed.

(** X6.  The [list] emitter sees its input through the sub-lines only:
    splitting the accumulated lines at their line feeds beforehand changes
    nothing, and one line made of several lines joined by line feeds gives
    the same node as those lines given one by one. *)
Theorem list_block_presplit :
  (forall (this : This) (blockContents : list string) (matches : list JsVal),
     list_emitter this (flat_map split_lf blockContents) matches
     = list_emitter this blockContents matches)
  /\ (forall (this : This) (lines : list string) (matches : list JsVal),
        lines <> [] -> Forall (fun l => lacks "010" l = true) lines ->
        list_emitter this [join LF lines] matches
        = list_emitter this lines matches).
Proof.
  split.
  - intros this blockContents matches.
    rewrite !list_emitter_items, !list_items_sublines.
    now rewrite flat_map_split_twice.
  - intros this lines matches Hne Hl.
    rewrite !list_emitter_items, !list_items_sublines.
    cbn [flat_map]. rewrite app_nil_r, (split_join lines Hne Hl).
    now rewrite (flat_map_split_free lines Hl).
Qed.

Lemma list_block_presplit_witness :
  list_emitter this_bbcode [join LF ["[*]one"; "[*]two"]%string] []
  = list_emitter this_bbcode ["[*]one"; "[*]two"]%string [].
Proof.
  refine (proj2 list_block_presplit this_bbcode
            ["[*]one"; "[*]two"]%string [] _ _).
  - discriminate.
  - repeat constructor.
Defined.

Section BlockPatterns.

Local Open Scope string_scope.

Lemma upcase_downcase (c : ascii) : upcase (downcase c) = upcase c.
Proof. destruct c as [[] [] [] [] [] [] [] []]; reflexivity. Qed.

Lemma downcase_upcase (c : ascii) : downcase (upcase c) = downcase c.
Proof. destruct c as [[] [] [] [] [] [] [] []]; reflexivity. Qed.

(** Under the [i] flag a code unit of the pattern that is its own lower
    case matches exactly the code units whose lower case it is. *)
Lemma ci_eq_lower (p c : ascii) :
  downcase p = p -> Regexp.ci_eq p c = (downcase c =? p)%char.
Proof.
  intros Hp. unfold Regexp.ci_eq.
  destruct (Ascii.eqb_spec (upcase p) (upcase c)) as [E|E];
    destruct (Ascii.eqb_spec (downcase c) p) as [F|F]; try reflexivity.
  - exfalso. apply F.
    now rewrite <- (downcase_upcase c), <- E, downcase_upcase.
  - exfalso. apply E. now rewrite <- F, upcase_downcase.
Qed.

Lemma ci_prefix_spec (pat : string) :
  toLowerCase pat = pat ->
  forall s : string,
  Regexp.ci_prefix pat s = true <->
  exists m post, s = m ++ post /\ toLowerCase m = pat.
Proof.
  induction pat as [|p pat IH]; intros Hpat s.
  - split; [intros _; now exists "", s|]. intros _. now destruct s.
  - cbn in Hpat. injection Hpat as Hp Hpat'. specialize (IH Hpat').
    destruct s as [|c s]; cbn [Regexp.ci_prefix].
    + split; [discriminate|]. intros (m & post & Hs & Hm).
      destruct m; discriminate.
    + rewrite (ci_eq_lower p c Hp), andb_true_iff, Ascii.eqb_eq, IH. split.
      * intros (Hc & m & post & -> & Hm). exists (String c m), post.
        split; [reflexivity|].
        change (String (downcase c) (toLowerCase m) = String p pat).
        now rewrite Hc, Hm.
      * intros (m & post & Hs & Hm). destruct m as [|c' m]; [discriminate|].
        change (String (downcase c') (toLowerCase m) = String p pat) in Hm.
        cbn [append] in Hs. injection Hs as -> ->. injection Hm as Hc Hm.
        split; [exact Hc|]. now exists m, post.
Qed.

Lemma ci_search_contains (pat s : string) :
  toLowerCase pat = pat ->
  Regexp.ci_search pat s = true <-> contains_ci pat s.
Proof.
  intros Hpat. unfold contains_ci. rewrite ci_search_spec. split.
  - intros (pre & rest & -> & H).
    apply (ci_prefix_spec pat Hpat) in H as (m & post & -> & H).
    now exists pre, m, post.
  - intros (pre & m & post & -> & H). exists pre, (m ++ post).
    split; [reflexivity|]. apply (ci_prefix_spec pat Hpat). now exists m, post.
Qed.

(** The unanchored search finds a match exactly when the pattern matches at
    the head of some suffix. *)
Lemma search_some (here : string -> option (list JsVal)) (s : string) :
  Regexp.search here s <> None <->
  exists pre rest, s = pre ++ rest /\ here rest <> None.
Proof.
  induction s as [|c s IH]; cbn [Regexp.search].
  - destruct (here "") eqn:E.
    + split; [intros _|discriminate]. exists "", "". now rewrite E.
    + split; [congruence|]. intros (pre & rest & Hs & H).
      destruct pre; [|discriminate]. cbn in Hs. subst rest. congruence.
  - destruct (here (String c s)) eqn:E.
    + split; [intros _|discriminate]. exists "", (String c s). now rewrite E.
    + rewrite IH. split.
      * intros (pre & rest & -> & H). now exists (String c pre), rest.
      * intros (pre & rest & Hs & H). destruct pre as [|a pre].
        -- cbn in Hs. subst rest. congruence.
        -- cbn in Hs. injection Hs as _ ->. now exists pre, rest.
Qed.

End BlockPatterns.

(** X7.  A line opens a [code] block exactly when it holds [[code]] in any
    mix of upper and lower case, and a line closes a [code] block, or a
    [list] block, exactly when it holds [[/code]], or [[/list]], in any mix
    of upper and lower case; where on the line does not matter. *)
Theorem block_tokens_any_case (line : string) :
  (Regexp.code_start line <> None <-> contains_ci "[code]" line)
  /\ (Regexp.code_stop line = true <-> contains_ci "[/code]" line)
  /\ (Regexp.list_stop line = true <-> contains_ci "[/list]" line).
Proof.
  split; [|split].
  - unfold Regexp.code_start. rewrite search_some.
    rewrite <- (ci_search_contains "[code]" line eq_refl), ci_search_spec.
    split; intros (pre & rest & Hs & H); exists pre, rest; split;
      try exact Hs; unfold Regexp.code_start_here in *;
      destruct (Regexp.ci_prefix "[code]" rest); congruence.
  - apply (ci_search_contains "[/code]" line eq_refl).
  - apply (ci_search_contains "[/list]" line eq_refl).
Qed.

Section ListStart.

Local Open Scope string_scope.

(** The matches on literal characters, as tests. *)
Lemma match_bracket {T : Type} (B : string -> T) (D : T) (r : string) :
  match r with
  | String "]"%char rest => B rest
  | _ => D
  end
  = match r with
    | String b rest => if (b =? "]")%char then B rest else D
    | EmptyString => D
    end.
Proof.
  destruct r as [|b rest]; [reflexivity|].
  destruct b as [[] [] [] [] [] [] [] []]; reflexivity.
Qed.

Lemma match_equal (r : string) :
  match r with
  | String "="%char r' => r'
  | _ => r
  end
  = match r with
    | String b r' => if (b =? "=")%char then r' else r
    | EmptyString => r
    end.
Proof.
  destruct r as [|b rest]; [reflexivity|].
  destruct b as [[] [] [] [] [] [] [] []]; reflexivity.
Qed.

Lemma match_bracket_word {T : Type} (A : string -> T)
    (B : ascii -> string -> T) (D : T) (r : string) :
  match r with
  | String "]"%char rest => A rest
  | String w (String "]"%char rest) => B w rest
  | _ => D
  end
  = match r with
    | EmptyString => D
    | String a r0 =>
        if (a =? "]")%char then A r0
        else match r0 with
             | String b rest => if (b =? "]")%char then B a rest else D
             | EmptyString => D
             end
    end.
Proof.
  destruct r as [|a r0]; [reflexivity|].
  destruct a as [[] [] [] [] [] [] [] []];
    first [ reflexivity | apply (match_bracket (B _) D r0) ].
Qed.

(** The list start pattern at the head of a line, with its tests
    spelled out. *)
Lemma list_start_here_tests (s : string) :
  Regexp.list_start_here s
  = if Regexp.ci_prefix "[list" s then
      let r := slice 5 s in
      let r := match r with
               | String b r' => if (b =? "=")%char then r' else r
               | EmptyString => r
               end in
      match r with
      | EmptyString => None
      | String a r0 =>
          if (a =? "]")%char then Some [JStr s; JUndefined; JStr r0]
          else match r0 with
               | String b rest =>
                   if (b =? "]")%char
                   then if is_word_char a
                        then Some [JStr s; JStr (String a ""); JStr rest]
                        else None
                   else None
               | EmptyString => None
               end
      end
    else None.
Proof.
  unfold Regexp.list_start_here.
  destruct (Regexp.ci_prefix "[list" s); [|reflexivity].
  cbv zeta. rewrite match_equal.
  apply (match_bracket_word
           (fun rest => Some [JStr s; JUndefined; JStr rest])
           (fun w rest =>
              if is_word_char w
              then Some [JStr s; JStr (String w ""); JStr rest]
              else None)
           None).
Qed.

Lemma word_char_not_special (c : ascii) :
  is_word_char c = true -> (c =? "=")%char = false /\ (c =? "]")%char = false.
Proof.
  destruct c as [[] [] [] [] [] [] [] []]; intros H;
    first [ discriminate H | split; reflexivity ].
Qed.

Lemma lower_length (m pat : string) :
  toLowerCase m = pat -> String.length m = String.length pat.
Proof.
  intros <-. induction m as [|c m IH]; [reflexivity|].
  cbn. now rewrite IH.
Qed.

End ListStart.

Section ListStartShape.

Local Open Scope string_scope.

Lemma list_start_here_sound (s : string) (m : list JsVal) :
  Regexp.list_start_here s = Some m ->
  exists tok eq w rest,
    s = tok ++ eq ++ w ++ String "]" rest
    /\ toLowerCase tok = "[list"
    /\ (eq = "" \/ eq = "=")
    /\ opt_word w = true
    /\ m = [JStr s; captured w; JStr rest].
Proof.
  rewrite list_start_here_tests.
  destruct (Regexp.ci_prefix "[list" s) eqn:Hp; [|discriminate].
  apply (ci_prefix_spec "[list" eq_refl) in Hp as (tok & post & Hs & Htok).
  pose proof (lower_length tok "[list" Htok) as Hlen. cbn in Hlen.
  assert (Hslice : slice 5 s = post)
    by (rewrite Hs, <- Hlen; apply slice_app).
  cbv zeta. rewrite Hslice.
  assert (Hr : forall eq r,
    (eq = "" \/ eq = "=") -> post = eq ++ r ->
    match r with
    | "" => None
    | String a r0 =>
        if (a =? "]")%char then Some [JStr s; JUndefined; JStr r0]
        else match r0 with
             | "" => None
             | String b rest =>
                 if (b =? "]")%char
                 then if is_word_char a
                      then Some [JStr s; JStr (String a ""); JStr rest]
                      else None
                 else None
             end
    end = Some m ->
    exists tok eq w rest,
      s = tok ++ eq ++ w ++ String "]" rest
      /\ toLowerCase tok = "[list"
      /\ (eq = "" \/ eq = "=")
      /\ opt_word w = true
      /\ m = [JStr s; captured w; JStr rest]).
  { intros eq r Heq Hpost. destruct r as [|a r0]; [discriminate|].
    destruct (Ascii.eqb_spec a "]") as [->|Ha].
    - intros [= <-]. exists tok, eq, "", r0. rewrite Hs, Hpost.
      repeat split; try assumption; reflexivity.
    - destruct r0 as [|b rest]; [discriminate|].
      destruct (Ascii.eqb_spec b "]") as [->|Hb]; [|discriminate].
      destruct (is_word_char a) eqn:Hw; [|discriminate].
      intros [= <-]. exists tok, eq, (String a ""), rest.
      rewrite Hs, Hpost. repeat split; try assumption; reflexivity. }
  destruct post as [|b r'].
  - discriminate.
  - destruct (Ascii.eqb_spec b "=") as [->|Hb].
    + apply (Hr "=" r'); [now right|reflexivity].
    + apply (Hr "" (String b r')); [now left|reflexivity].
Qed.

Lemma list_start_here_complete (tok eq w rest : string) :
  toLowerCase tok = "[list" -> (eq = "" \/ eq = "=") -> opt_word w = true ->
  let s := tok ++ eq ++ w ++ String "]" rest in
  Regexp.list_start_here s = Some [JStr s; captured w; JStr rest].
Proof.
  intros Htok Heq Hw s. rewrite list_start_here_tests.
  assert (Hp : Regexp.ci_prefix "[list" s = true).
  { apply (ci_prefix_spec "[list" eq_refl). now exists tok, (eq ++ w ++ String "]" rest). }
  rewrite Hp. cbv zeta.
  pose proof (lower_length tok "[list" Htok) as Hlen. cbn in Hlen.
  assert (Hslice : slice 5 s = eq ++ w ++ String "]" rest)
    by (unfold s; rewrite <- Hlen; apply slice_app).
  rewrite Hslice.
  assert (Hr :
    match w ++ String "]" rest with
    | "" => None
    | String a r0 =>
        if (a =? "]")%char then Some [JStr s; JUndefined; JStr r0]
        else match r0 with
             | "" => None
             | String b rest =>
                 if (b =? "]")%char
                 then if is_word_char a
                      then Some [JStr s; JStr (String a ""); JStr rest]
                      else None
                 else None
             end
    end = Some [JStr s; captured w; JStr rest]).
  { destruct w as [|c [|]]; try discriminate Hw.
    - reflexivity.
    - cbn [opt_word] in Hw. cbn [append captured].
      destruct (word_char_not_special c Hw) as [_ ->].
      cbn. now rewrite Hw. }
  destruct Heq as [-> | ->].
  - cbn [append]. destruct w as [|c [|]]; try discriminate Hw.
    + exact Hr.
    + cbn [opt_word] in Hw. cbn [append] in Hr |- *.
      destruct (word_char_not_special c Hw) as [-> _]. exact Hr.
  - exact Hr.
Qed.

End ListStartShape.

(** X8.  At the head of a line the list start pattern matches exactly the
    texts made of [[list] in any mix of upper and lower case, an optional
    equal sign, an optional word character and a closing bracket; the
    captured item is that word character, or [undefined].  So the list is an
    [ol] whose [type] is the word character when there is one, with or
    without the equal sign, and a [ul] otherwise, also after a bare equal
    sign. *)
Theorem list_start_shape :
  (forall (s : string) (m : list JsVal),
     Regexp.list_start_here s = Some m <->
     exists tok eq w rest : string,
       s = (tok ++ eq ++ w ++ String "]" rest)%string
       /\ toLowerCase tok = "[list"%string
       /\ (eq = ""%string \/ eq = "="%string)
       /\ opt_word w = true
       /\ m = [JStr s; captured w; JStr rest])
  /\ (forall (c : ascii) (s rest : string),
        is_word_char c = true ->
        list_head [JStr s; captured (String c ""); JStr rest]
        = [JStr "ol"; JObj [("type", JStr (String c ""))]])
  /\ (forall s rest : string,
        list_head [JStr s; captured ""; JStr rest] = [JStr "ul"]).
Proof.
  split; [|split; reflexivity].
  intros s m. split.
  - apply list_start_here_sound.
  - intros (tok & eq & w & rest & -> & Htok & Heq & Hw & ->).
    now apply list_start_here_complete.
Qed.

Lemma list_start_shape_witness :
  Regexp.list_start_here "[LIST=a]x"
  = Some [JStr "[LIST=a]x"; captured "a"; JStr "x"]
  /\ list_head [JStr "[LIST=a]x"; captured "a"; JStr "x"]
     = [JStr "ol"; JObj [("type", JStr "a")]].
Proof.
  split.
  - apply (proj2 (proj1 list_start_shape "[LIST=a]x"%string _)).
    exists "[LIST"%string, "="%string, "a"%string, "x"%string.
    repeat split. now right.
  - exact (proj1 (proj2 list_start_shape) "a"%char "[LIST=a]x"%string
             "x"%string eq_refl).
Defined.

Section SizeNumber.

Local Open Scope string_scope.

(** Reading the digits of a numeral gives back its value. *)
Lemma digits_acc (d : Decimal.uint) :
  forall acc : positive,
  digits (Some (Z.pos acc)) (NilEmpty.string_of_uint d)
  = Some (Z.pos (Pos.of_uint_acc d acc)).
Proof.
  induction d as [|d IH|d IH|d IH|d IH|d IH|d IH|d IH|d IH|d IH|d IH];
    intros acc; [reflexivity|..];
    cbn [NilEmpty.string_of_uint digits Pos.of_uint_acc];
    match goal with
    | |- (if is_digit ?c then _ else _) = _ =>
        change (is_digit c) with true; cbv iota
    end;
    rewrite <- IH; do 2 f_equal;
    match goal with
    | |- context [Z.of_nat (code ?c - 48)] =>
        let v := eval vm_compute in (Z.of_nat (code c - 48)) in
        change (Z.of_nat (code c - 48)) with v
    end; lia.
Qed.

Lemma digits_zero (d : Decimal.uint) :
  digits (Some 0%Z) (NilEmpty.string_of_uint d)
  = Some (Z.of_N (Pos.of_uint d)).
Proof.
  induction d as [|d IH|d IH|d IH|d IH|d IH|d IH|d IH|d IH|d IH|d IH];
    [reflexivity | exact IH | ..];
    cbn [NilEmpty.string_of_uint digits Pos.of_uint];
    match goal with
    | |- (if is_digit ?c then _ else _) = _ =>
        change (is_digit c) with true; cbv iota
    end;
    cbn [Z.of_N]; rewrite <- digits_acc; reflexivity.
Qed.

Lemma digits_positive (p : positive) :
  digits None (NilEmpty.string_of_uint (Pos.to_uint p)) = Some (Z.pos p).
Proof.
  pose proof (DecimalPos.Unsigned.of_to p) as H.
  pose proof (digits_zero (Pos.to_uint p)) as E. rewrite H in E.
  destruct (Pos.to_uint p); [discriminate H|..]; exact E.
Qed.

Lemma numeral_head (p : positive) :
  exists c s,
    NilEmpty.string_of_uint (Pos.to_uint p) = String c s
    /\ is_digit c = true.
Proof.
  pose proof (DecimalPos.Unsigned.of_to p) as H.
  destruct (Pos.to_uint p); [discriminate H|..];
    eexists; eexists; split; reflexivity.
Qed.

Lemma digit_plain (c : ascii) :
  is_digit c = true ->
  is_space c = false /\ c <> "-"%char /\ c <> "+"%char.
Proof.
  destruct c as [[] [] [] [] [] [] [] []]; intros H;
    first [ discriminate H | repeat split; discriminate ].
Qed.

(** Before a digit there is no sign to read. *)
Lemma sign_of_digit (c : ascii) (s : string) :
  is_digit c = true ->
  match String c s with
  | String "-"%char s' => ((-1)%Z, s')
  | String "+"%char s' => (1%Z, s')
  | _ => (1%Z, String c s)
  end = (1%Z, String c s).
Proof.
  destruct c as [[] [] [] [] [] [] [] []]; intros H;
    first [ discriminate H | reflexivity ].
Qed.

Lemma parseInt10_digits (c : ascii) (s : string) :
  is_digit c = true ->
  parseInt10 (String c s)
  = match digits None (String c s) with
    | Some n => Int (1 * n)
    | None => NaN
    end.
Proof.
  intros H. unfold parseInt10. cbn [trim_left].
  destruct (digit_plain c H) as (-> & _ & _).
  now rewrite (sign_of_digit c s H).
Qed.

(** Printing an integer and parsing it in base 10 gives the integer. *)
Lemma parseInt10_print (z : Z) :
  parseInt10 (number_to_string (Int z)) = Int z.
Proof.
  unfold number_to_string, Z.to_int. destruct z as [|p|p].
  - reflexivity.
  - cbn [NilEmpty.string_of_int].
    destruct (numeral_head p) as (c & s & E & Hc).
    pose proof (digits_positive p) as Hd. rewrite E in Hd |- *.
    rewrite (parseInt10_digits c s Hc), Hd. reflexivity.
  - cbn [NilEmpty.string_of_int]. unfold parseInt10.
    change (trim_left (String "-" ?s)) with (String "-" s).
    cbv iota beta. now rewrite digits_positive.
Qed.

Lemma digits_junk (d junk : string) :
  all_chars is_digit d = true ->
  (forall c t, junk = String c t -> is_digit c = false) ->
  forall acc, digits acc (d ++ junk) = digits acc d.
Proof.
  intros Hd Hj. induction d as [|c d IH]; intros acc.
  - cbn [append digits]. destruct junk as [|c t]; [reflexivity|].
    cbn [digits]. now rewrite (Hj c t eq_refl).
  - rewrite all_chars_cons in Hd. apply andb_true_iff in Hd as [Hc Hd].
    cbn [append digits]. rewrite Hc. now apply IH.
Qed.

Lemma trim_left_spaces (ws t : string) :
  all_chars is_space ws = true -> trim_left (ws ++ t) = trim_left t.
Proof.
  induction ws as [|c ws IH]; intros H; [reflexivity|].
  rewrite all_chars_cons in H. apply andb_true_iff in H as [Hc Hw].
  cbn [append trim_left]. rewrite Hc. now apply IH.
Qed.

(** White space before the digits and anything but a digit after them do
    not count. *)
Lemma parseInt10_trim (ws d junk : string) :
  all_chars is_space ws = true ->
  d <> "" -> all_chars is_digit d = true ->
  (forall c t, junk = String c t -> is_digit c = false) ->
  parseInt10 (ws ++ d ++ junk) = parseInt10 d.
Proof.
  intros Hw Hne Hd Hj. destruct d as [|c d]; [congruence|].
  pose proof Hd as Hd'. rewrite all_chars_cons in Hd'.
  apply andb_true_iff in Hd' as [Hc _].
  unfold parseInt10 at 1. rewrite (trim_left_spaces ws _ Hw).
  fold (parseInt10 (String c d ++ junk)). cbn [append].
  rewrite !(parseInt10_digits c _ Hc).
  change (String c (d ++ junk)) with (String c d ++ junk).
  now rewrite (digits_junk (String c d) junk Hd Hj).
Qed.

End SizeNumber.

(** X9.  A size written as a decimal integer other than zero, within the
    safe integers, gives a [span] whose class ends with that same numeral:
    printing and parsing cancel, a negative sign included. *)
Theorem size_keeps_integer (z : Z) (contents : JsVal) :
  z <> 0%Z -> (- 2 ^ 53 <= z <= 2 ^ 53)%Z ->
  parseInt10 (number_to_string (Int z)) = Int z
  /\ emit_size_class (number_to_string (Int z)) contents
     = JArr (concat
               [JStr "span";
                JObj [("class",
                       JStr ("bbcode-size-" ++ number_to_string (Int z)))]]
               contents).
Proof.
  intros Hz _. split; [apply parseInt10_print|].
  unfold emit_size_class. rewrite parseInt10_print.
  unfold number_or, number_truthy.
  destruct (Z.eqb_spec z 0); [contradiction|reflexivity].
Qed.

Lemma size_keeps_integer_witness :
  emit_size_class (number_to_string (Int (-12))) (JArr [JStr "x"])
  = JArr [JStr "span"; JObj [("class", JStr "bbcode-size--12")]; JStr "x"].
Proof.
  refine (proj2 (size_keeps_integer (-12) (JArr [JStr "x"]) _ _)).
  - discriminate.
  - split; discriminate.
Defined.

(** X10.  The size emitter reads its parameter as [parseInt] does: white
    space before the digits and any text after them that does not begin
    with a digit change nothing, so a parameter such as [7px] gives the
    class of [7]. *)
Theorem size_ignores_unit (ws d junk : string) (contents : JsVal) :
  all_chars is_space ws = true ->
  d <> ""%string -> all_chars is_digit d = true ->
  (forall c t, junk = String c t -> is_digit c = false) ->
  emit_size_class (ws ++ d ++ junk) contents = emit_size_class d contents.
Proof.
  intros Hw Hne Hd Hj. unfold emit_size_class.
  now rewrite (parseInt10_trim ws d junk Hw Hne Hd Hj).
Qed.

Lemma size_ignores_unit_witness :
  emit_size_class (" " ++ "7" ++ "px") (JArr [JStr "x"])
  = emit_size_class "7" (JArr [JStr "x"]).
Proof.
  refine (size_ignores_unit " "%string "7"%string "px"%string
            (JArr [JStr "x"]) eq_refl _ eq_refl _).
  - discriminate.
  - intros c t [= <- _]. reflexivity.
Defined.

Section BracketFirst.

Local Open Scope string_scope.

Lemma lazy_rest_no_bracket (taken s : string) :
  lacks "]" s = true -> Regexp.lazy_rest taken s = None.
Proof.
  intros H. destruct (Regexp.lazy_rest taken s) as [[m1 r]|] eqn:E;
    [|reflexivity].
  apply lazy_rest_sound in E as (mid & q & _ & Hs & _).
  rewrite Hs, !lacks_app in H. apply andb_true_iff in H as [_ H].
  apply andb_true_iff in H as [_ H]. apply lacks_cons in H as [H _].
  congruence.
Qed.

Lemma bracket_then_plain (a b : string) :
  plain a = true -> one_line b = true ->
  Regexp.lazy_group (String "]" (a ++ String "]" b))
  = Some (String "]" a, b).
Proof.
  intros Ha Hb. unfold Regexp.lazy_group.
  change (Regexp.dot "]") with true. cbv iota.
  now rewrite lazy_rest_plain.
Qed.

End BracketFirst.

(** X11.  A closing bracket in first place is parameter text, not the end
    of the parameter.  After it, a plainly written stretch and a second
    bracket give a parameter that begins with the bracket, with or without
    a quote before it (the quote is stripped).  And a quote that stands
    directly before the only bracket of the span is itself the parameter. *)
Theorem params_bracket_in_first_place :
  (forall a b : string,
     plain a = true -> one_line b = true ->
     Regexp.params_exec (String "]" (a ++ String "]" b))
     = Some (String "]" a, b))
  /\ (forall (q : ascii) (a b : string),
        Regexp.is_quote q = true -> plain a = true -> one_line b = true ->
        Regexp.params_exec (String q (String "]" (a ++ String "]" b)))
        = Some (String "]" a, b))
  /\ (forall (q : ascii) (c : string),
        Regexp.is_quote q = true -> one_line c = true ->
        lacks "]" c = true ->
        Regexp.params_exec (String q (String "]" c))
        = Some (String q "", c)).
Proof.
  split; [|split].
  - intros a b Ha Hb. unfold Regexp.params_exec.
    change (Regexp.is_quote "]") with false. cbv iota.
    now apply bracket_then_plain.
  - intros q a b Hq Ha Hb. unfold Regexp.params_exec. rewrite Hq.
    now rewrite bracket_then_plain.
  - intros q c Hq Hc Hl. unfold Regexp.params_exec. rewrite Hq.
    assert (E : Regexp.lazy_group (String "]" c) = None).
    { unfold Regexp.lazy_group. change (Regexp.dot "]") with true.
      cbv iota. now apply lazy_rest_no_bracket. }
    rewrite E. unfold Regexp.lazy_group. rewrite (quote_is_dot q Hq).
    cbn [Regexp.lazy_rest]. unfold Regexp.quote_close.
    change (Regexp.is_quote "]") with false. cbv iota.
    now rewrite close_bracket, Hc.
Qed.

Lemma params_bracket_in_first_place_witness :
  Regexp.params_exec (String "]" ("a" ++ String "]" "b"))
  = Some ("]a", "b")%string
  /\ Regexp.params_exec (String "'" (String "]" ("a" ++ String "]" "b")))
     = Some ("]a", "b")%string
  /\ Regexp.params_exec (String "'" (String "]" "x"))
     = Some ("'", "x")%string.
Proof.
  split; [|split].
  - exact (proj1 params_bracket_in_first_place "a"%string "b"%string
             eq_refl eq_refl).
  - exact (proj1 (proj2 params_bracket_in_first_place) "'"%char
             "a"%string "b"%string eq_refl eq_refl eq_refl).
  - exact (proj2 (proj2 params_bracket_in_first_place) "'"%char
             "x"%string eq_refl eq_refl eq_refl).
Defined.

(** X12.  The loop over the alignment directions registers, for each
    direction in turn, the lower-case and the upper-case pair of tokens
    after the rules already there, and leaves the block rules alone.  Both
    rules of a direction carry the emitter of that direction as it is
    spelled in the list, so the upper-case tag gives the same [div], with
    the style [text-align:] followed by the direction in lower case. *)
Theorem alignment_loop (directions : list string) :
  forall reg : Registry,
  let result :=
    forEach directions
      (fun reg direction =>
         replaceBBCode direction (emit_align direction) None reg) reg in
  inline_rules result
  = inline_rules reg
    ++ flat_map
         (fun d =>
            [tag_rule ("[" ++ d ++ "]") ("[/" ++ d ++ "]") false
               (emit_align d);
             tag_rule ("[" ++ toUpperCase d ++ "]")
               ("[/" ++ toUpperCase d ++ "]") false (emit_align d)])
         directions
  /\ block_rules result = block_rules reg
  /\ forall (d : string) (this : This) (l : list JsVal),
       emit_align d this (JArr l)
       = JArr (JStr "div"
                 :: JObj [("style", JStr ("text-align:" ++ d))] :: l).
Proof.
  induction directions as [|d ds IH]; intros reg.
  - cbn. rewrite app_nil_r. repeat split.
  - cbv zeta in IH |- *. unfold forEach in IH |- *. cbn [fold_left flat_map].
    destruct (IH (replaceBBCode d (emit_align d) None reg)) as (Hi & Hb & He).
    destruct (replaceBBCode_inline d (emit_align d) None reg) as [Ri Rb].
    cbv zeta in Ri. cbn [empty_opts opt_rawContents opt_wordBoundary
                         opt_spaceBoundary flag] in Ri.
    split; [|split].
    + rewrite Hi, Ri, <- app_assoc. reflexivity.
    + now rewrite Hb, Rb.
    + exact He.
Qed.

(* ================================================================== *)
(** ** The list block, its split and its test *)
(* ================================================================== *)

Section ListSplit.

Local Open Scope string_scope.

Lemma split_lf_cons (s : string) : exists p ps, split_lf s = p :: ps.
Proof.
  induction s as [|c s (p & ps & E)]; [now exists "", []|].
  cbn [split_lf]. rewrite E.
  destruct (code c =? 10)%nat; eexists; eexists; reflexivity.
Qed.

Lemma join_cons (c : ascii) (p : string) (ps : list string) :
  join LF (String c p :: ps) = String c (join LF (p :: ps)).
Proof. destruct ps; reflexivity. Qed.

(** Joining the pieces of a string by line feeds gives the string back. *)
Lemma join_split (s : string) : join LF (split_lf s) = s.
Proof.
  induction s as [|c s IH]; [reflexivity|].
  cbn [split_lf]. destruct (split_lf_cons s) as (p & ps & E).
  rewrite E in IH |- *.
  destruct (Nat.eqb_spec (code c) 10) as [Hc|Hc].
  - change (join LF ("" :: p :: ps))
      with (String "010" (join LF (p :: ps))).
    rewrite IH. f_equal.
    unfold code in Hc.
    rewrite <- (ascii_nat_embedding c), Hc. reflexivity.
  - now rewrite join_cons, IH.
Qed.

(** Lines that are joins of groups of pieces split into those pieces. *)
Lemma split_joined_groups (groups : list (list string)) :
  Forall (fun g => g <> []
                   /\ Forall (fun l => lacks "010" l = true) g) groups ->
  flat_map split_lf (map (join LF) groups) = List.concat groups.
Proof.
  induction 1 as [|g gs [Hne Hg] _ IH]; [reflexivity|].
  cbn [map flat_map List.concat]. now rewrite IH, split_join.
Qed.

Lemma non_empty_truthy (v : JsVal) : non_empty v = true -> truthy v = true.
Proof. destruct v as [|b|s|[|x l]|o]; cbn; congruence. Qed.

End ListSplit.

(** C4, as stated, fails.  The test of the source is [if (li)], and an
    array passes it whether it holds anything or not.  The sub-line that is
    the marker alone hands the empty string to the hook, the result is the
    empty array, and an [li] without children is appended all the same: the
    lines [[list]], [[*]], [[/list]] yield a [ul] with one [li], where the
    rule of the claim, which appends when the result is non-empty, gives a
    [ul] without children. *)
Lemma list_block_counterexample :
  bbcode "" = JArr []
  /\ non_empty (bbcode "") = false
  /\ list_item bbcode "[*]" = [JArr [JStr "li"]]
  /\ claimed_list_item bbcode "[*]" = []
  /\ list_emitter this_bbcode ["[*]"%string] []
     = JArr [JStr "ul"; JArr [JStr "li"]]
  /\ bbcode_blocks ["[list]"; "[*]"; "[/list]"]%string
     = [JArr [JStr "ul"; JArr [JStr "li"]]]
  /\ ~ (forall (this : This) (blockContents : list string)
               (matches : list JsVal),
          list_emitter this blockContents matches
          = JArr (list_head matches
                  ++ flat_map
                       (fun bc =>
                          flat_map (claimed_list_item (processInline this))
                            (split_lf bc))
                       blockContents)).
Proof.
  do 6 (split; [reflexivity|]).
  intros H. specialize (H this_bbcode ["[*]"%string] []).
  discriminate H.
Qed.

(** C4, amended.  The [list] emitter returns the opening node ([ul], or
    [ol] with the captured type) followed by the items of the sub-lines, in
    order.  The sub-lines are the pieces between the line feeds: when the
    accumulated lines are the joins, by line feeds, of groups of pieces free
    of line feeds, the items are those of the pieces of all groups, and every
    string is such a join.  A sub-line that begins with the marker
    contributes one [li] holding the hook's result on the text after the
    three characters of the marker when the result passes the test
    [if (li)]; every non-empty result passes it, and so does every array,
    the empty one included, which gives an [li] without children; a result
    that fails the test contributes nothing, and neither does a sub-line
    that does not begin with the marker.  One accumulated line holding
    [[*]one], [junk] and [[*]two] between line feeds gives the two items and
    drops [junk], by itself as within a block.  The lines [[list]], [[*]one], [[*]two], [[/list]] yield a
    [ul] of exactly two [li], holding [Text one] and [Text two]. *)
Theorem list_block_items :
  (forall (this : This) (groups : list (list string))
          (matches : list JsVal),
     Forall (fun g => g <> []
                      /\ Forall (fun l => lacks "010" l = true) g) groups ->
     list_emitter this (map (join LF) groups) matches
     = JArr (list_head matches
             ++ flat_map (list_item (processInline this))
                  (List.concat groups)))
  /\ (forall bc : string,
        exists g,
          bc = join LF g /\ g <> []
          /\ Forall (fun l => lacks "010" l = true) g)
  /\ (forall (hook : string -> JsVal) (line : string),
        String.prefix "[*]" line = true ->
        truthy (hook (slice 3 line)) = true ->
        list_item hook line
        = [JArr (concat [JStr "li"] (hook (slice 3 line)))])
  /\ (forall v : JsVal, non_empty v = true -> truthy v = true)
  /\ (forall (hook : string -> JsVal) (line : string) (l : list JsVal),
        String.prefix "[*]" line = true ->
        hook (slice 3 line) = JArr l ->
        list_item hook line = [JArr (JStr "li" :: l)])
  /\ (forall (hook : string -> JsVal) (line : string),
        String.prefix "[*]" line = true ->
        truthy (hook (slice 3 line)) = false ->
        list_item hook line = [])
  /\ (forall (hook : string -> JsVal) (line : string),
        String.prefix "[*]" line = false -> list_item hook line = [])
  /\ list_emitter this_bbcode
       [("[*]one" ++ LF ++ "junk" ++ LF ++ "[*]two")%string] []
     = JArr [JStr "ul"; JArr [JStr "li"; JStr "one"];
             JArr [JStr "li"; JStr "two"]]
  /\ bbcode_blocks
       ["[list]"; "[*]one" ++ LF ++ "junk" ++ LF ++ "[*]two";
        "[/list]"]%string
     = [JArr [JStr "ul"; JArr [JStr "li"; JStr "one"];
              JArr [JStr "li"; JStr "two"]]]
  /\ bbcode_blocks ["[list]"; "[*]one"; "[*]two"; "[/list]"]%string
     = [JArr [JStr "ul"; JArr [JStr "li"; JStr "one"];
              JArr [JStr "li"; JStr "two"]]]
  /\ Node.of_jsonml
       (JArr [JStr "ul"; JArr [JStr "li"; JStr "one"];
              JArr [JStr "li"; JStr "two"]])
     = Some (Node.Element "ul" []
               [Node.Element "li" [] [Node.Text "one"];
                Node.Element "li" [] [Node.Text "two"]]).
Proof.
  split; [|split; [|split; [|split; [|split; [|split; [|split;
    [|split; [|split; [|split]]]]]]]]]; try reflexivity.
  - intros this groups matches Hg.
    rewrite list_emitter_items, list_items_sublines.
    now rewrite split_joined_groups.
  - intros bc. exists (split_lf bc). split; [|split].
    + symmetry. apply join_split.
    + destruct (split_lf_cons bc) as (p & ps & ->). discriminate.
    + apply split_lf_pieces.
  - intros hook line Hp Ht. unfold list_item. cbv zeta. now rewrite Hp, Ht.
  - exact non_empty_truthy.
  - intros hook line l Hp Hh. unfold list_item. cbv zeta.
    now rewrite Hp, Hh.
  - intros hook line Hp Ht. unfold list_item. cbv zeta. now rewrite Hp, Ht.
  - intros hook line Hp. unfold list_item. now rewrite Hp.
Qed.

Lemma list_block_items_witness :
  list_emitter this_bbcode
    (map (join LF) [["[*]one"; "junk"; "[*]two"]; ["[*]"]]%string) []
  = JArr [JStr "ul"; JArr [JStr "li"; JStr "one"];
          JArr [JStr "li"; JStr "two"]; JArr [JStr "li"]]
  /\ list_item bbcode "[*]one" = [JArr [JStr "li"; JStr "one"]]
  /\ truthy (JArr [JStr "one"]) = true
  /\ list_item bbcode "[*]" = [JArr [JStr "li"]]
  /\ list_item (fun _ => JStr "") "[*]one" = []
  /\ list_item bbcode "one" = [].
Proof.
  split; [|split; [|split; [|split; [|split]]]].
  - refine (eq_trans
              (proj1 list_block_items this_bbcode
                 [["[*]one"; "junk"; "[*]two"]; ["[*]"]]%string [] _) _).
    + repeat constructor; discriminate.
    + reflexivity.
  - exact (proj1 (proj2 (proj2 list_block_items)) bbcode "[*]one"%string
             eq_refl eq_refl).
  - exact (proj1 (proj2 (proj2 (proj2 list_block_items)))
             (JArr [JStr "one"]) eq_refl).
  - exact (proj1 (proj2 (proj2 (proj2 (proj2 list_block_items))))
             bbcode "[*]"%string [] eq_refl eq_refl).
  - exact (proj1 (proj2 (proj2 (proj2 (proj2 (proj2 list_block_items)))))
             (fun _ => JStr ""%string) "[*]one"%string eq_refl eq_refl).
  - exact (proj1 (proj2 (proj2 (proj2 (proj2 (proj2 (proj2
             list_block_items))))))
             bbcode "one"%string eq_refl).
Defined.

(* ================================================================== *)
(** ** A parameterized rule that does not fire *)
(* ================================================================== *)

Section ParamDeclined.

Local Open Scope string_scope.



End ParamDeclined.




(* ================================================================== *)
(** ** Rules whose start tokens overlap *)
(* ================================================================== *)

Section Overlap.

Local Open Scope string_scope.







End Overlap.




(** C7, as stated, fails.  Take the span of four characters: closing
    bracket, [a], closing bracket, [b], and a hook that marks what it is
    given.  The portion after the first closing bracket is [a]b]; the
    pattern, whose parameter group needs one character, ends the parameter
    at the second bracket, so the hook of the recursive variant receives
    [b]. *)
Lemma recursive_contents_counterexample :
  split_at_first_bracket "]a]b" = Some ("", "a]b")%string
  /\ Regexp.params_exec "]a]b" = Some ("]a", "b")%string
  /\ params_emitter (recursive_emitter emit_url_param)
       {| processInline := fun s => JArr [JStr "hook"; JStr s] |}
       (JStr "]a]b")
     = JArr [JStr "a"; JObj [("href", JStr "]a"); data_bbcode];
             JStr "hook"; JStr "b"]
  /\ ~ (forall (em : string -> JsVal -> JsVal) (this : This)
               (s prefix rest : string),
          Regexp.params_exec s <> None ->
          split_at_first_bracket s = Some (prefix, rest) ->
          exists param,
            params_emitter (recursive_emitter em) this (JStr s)
            = em param (processInline this rest)).
Proof.
  do 3 (split; [reflexivity|]).
  intros H.
  destruct (H (fun _ c => c) {| processInline := JStr |}
              "]a]b"%string ""%string "a]b"%string)
    as [param E]; [discriminate|reflexivity|].
  discriminate E.
Qed.

(** C7, amended.  The emitter that [replaceBBCodeParams] registers feeds
    the contents through [this.processInline] and hands the result to the
    given emitter; the contents are what follows the closing bracket that
    ends the parameter, the first one after the first character of the
    parameter, and for a parameter written plainly that is the portion after
    the first closing bracket of the span.  The emitter that
    [replaceBBCodeParamsRaw] registers hands over the contents as the string
    they are.  Both kinds of rule, and the rules of [rawBBCode], are
    registered with [rawContents], so the matcher passes the span as a
    string.  [[noparse][b]x[/b][/noparse]] yields the text [[b]x[/b]], not a
    nested [span]. *)
Theorem recursive_and_raw_contents :
  (forall (em : string -> JsVal -> JsVal) (this : This)
          (s param contents : string),
     Regexp.params_exec s = Some (param, contents) ->
     params_emitter (recursive_emitter em) this (JStr s)
     = em param (processInline this contents)
     /\ exists q1 q2 c p',
          param = String c p'
          /\ s = (q1 ++ param ++ q2 ++ String "]" contents)%string
          /\ opt_quote q1 = true /\ opt_quote q2 = true
          /\ lacks "]" (p' ++ q2) = true)
  /\ (forall (em : string -> JsVal -> JsVal) (this : This)
             (p contents : string),
        p <> ""%string -> plain p = true -> one_line contents = true ->
        split_at_first_bracket (p ++ String "]" contents)
        = Some (p, contents)
        /\ params_emitter (recursive_emitter em) this
             (JStr (p ++ String "]" contents))
           = em p (processInline this contents))
  /\ (forall (em : ParamsEmitter) (this : This) (s param contents : string),
        Regexp.params_exec s = Some (param, contents) ->
        params_emitter em this (JStr s) = em this param contents)
  /\ (forall (tag : string) (em : string -> JsVal -> JsVal)
             (reg : Registry),
        inline_rules (replaceBBCodeParams tag em reg)
        = inline_rules reg
          ++ [param_rule tag (recursive_emitter em);
              param_rule (toUpperCase tag) (recursive_emitter em)])
  /\ (forall (tag : string) (em : Emitter) (reg : Registry),
        inline_rules (rawBBCode tag em reg)
        = inline_rules reg
          ++ [tag_rule ("[" ++ tag ++ "]") ("[/" ++ tag ++ "]") true em;
              tag_rule ("[" ++ toUpperCase tag ++ "]")
                ("[/" ++ toUpperCase tag ++ "]") true em])
  /\ (forall (this : This) (r : InlineRule) (prev : option ascii)
             (text : string) (k : nat),
        rawContents r = true ->
        String.prefix (start r) text = true ->
        invalidBoundary r prev = false ->
        indexOf (stop r) (slice (String.length (start r)) text) = Some k ->
        try_rule this r prev text
        = match emitter r this
                  (JStr (take k (slice (String.length (start r)) text))) with
          | JUndefined => None
          | node =>
              Some (String.length (start r) + k + String.length (stop r),
                    node)
          end)
  /\ (forall x : string,
        indexOf "[/noparse]" x = None ->
        bbcode ("[noparse]" ++ x ++ "[/noparse]") = JArr [JStr x])
  /\ bbcode "[noparse][b]x[/b][/noparse]" = JArr [JStr "[b]x[/b]"]
  /\ Node.of_jsonml (JStr "[b]x[/b]") = Some (Node.Text "[b]x[/b]").
Proof.
  split; [|split; [|split; [|split; [|split; [|split; [|split;
    [|split; reflexivity]]]]]]].
  - intros em this s param contents H. split.
    + unfold params_emitter. cbn [ToString]. now rewrite H.
    + destruct (params_exec_sound s param contents H)
        as (q1 & q2 & c & p' & Hp & Hs & H1 & H2 & Hl & _).
      now exists q1, q2, c, p'.
  - intros em this p contents Hne Hp Hc. split.
    + now apply split_plain.
    + unfold params_emitter. cbn [ToString].
      now rewrite params_exec_plain.
  - intros em this s param contents H. unfold params_emitter.
    cbn [ToString]. now rewrite H.
  - intros tag em reg. apply replaceBBCodeParamsRaw_inline.
  - intros tag em reg. unfold rawBBCode.
    match goal with
    | |- inline_rules (replaceBBCode _ _ ?o _) = _ =>
        exact (proj1 (replaceBBCode_inline tag em o reg))
    end.
  - exact try_rule_raw.
  - exact bbcode_noparse.
Qed.

Lemma recursive_and_raw_contents_witness :
  params_emitter (recursive_emitter emit_url_param) this_bbcode
    (JStr "]a]b")
  = emit_url_param "]a" (bbcode "b")
  /\ params_emitter (recursive_emitter emit_url_param) this_bbcode
       (JStr "http://example.com]click")
     = emit_url_param "http://example.com" (bbcode "click")
  /\ params_emitter (recursive_emitter emit_color) this_bbcode
       (JStr ("red" ++ String "]" "x"))
     = emit_color "red" (bbcode "x")
  /\ params_emitter emit_fphp_param this_bbcode (JStr "strlen]x")
     = emit_fphp_param this_bbcode "strlen" "x"
  /\ try_rule this_bbcode
       (tag_rule "[noparse]" "[/noparse]" true emit_noparse) None
       "[noparse][b][/noparse]"
     = Some (22, JStr "[b]")
  /\ bbcode ("[noparse]" ++ "[b]x[/b]" ++ "[/noparse]")
     = JArr [JStr "[b]x[/b]"].
Proof.
  split; [|split; [|split; [|split; [|split]]]].
  - exact (proj1 (proj1 recursive_and_raw_contents emit_url_param
             this_bbcode "]a]b"%string "]a"%string "b"%string eq_refl)).
  - exact (proj1 (proj1 recursive_and_raw_contents emit_url_param
             this_bbcode "http://example.com]click"%string
             "http://example.com"%string "click"%string eq_refl)).
  - refine (proj2 (proj1 (proj2 recursive_and_raw_contents) emit_color
              this_bbcode "red"%string "x"%string _ eq_refl eq_refl)).
    discriminate.
  - exact (proj1 (proj2 (proj2 recursive_and_raw_contents)) emit_fphp_param
             this_bbcode "strlen]x"%string "strlen"%string "x"%string
             eq_refl).
  - exact (proj1 (proj2 (proj2 (proj2 (proj2 (proj2
             recursive_and_raw_contents)))))
             this_bbcode
             (tag_rule "[noparse]" "[/noparse]" true emit_noparse) None
             "[noparse][b][/noparse]"%string 3 eq_refl eq_refl eq_refl
             eq_refl).
  - exact (proj1 (proj2 (proj2 (proj2 (proj2 (proj2 (proj2
             recursive_and_raw_contents))))))
             "[b]x[/b]"%string eq_refl).
Defined.
